(** * SprintScripts: the sprint-close script, [scripts/sprint_close.py]

    A shallow embedding of the four transformation functions of the script
    ([get_duplicate_name], [generate_memberships], [generate_custom_fields])
    and of the two loops that talk to the Asana client ([duplicate_tasks],
    [complete_tasks]) and of the [__main__] block that reads the environment
    and calls them, followed by the properties of the specification that
    hold of them and by the concrete inputs at which the others fail.

    Modelling conventions.
    - A Python [str] is a [string]; a character of the model is one character
      of the Python string, so [name[4:]] drops four of them. The functions
      inspect brackets and ASCII digits only and copy every other character
      as it is.
    - A Python [int] is a [Z].
    - An exception is a value of [exception]; a function that can raise
      returns a [result].
    - A Python [dict] used as a map from field gids to values is a
      [gmap string value]; the records of the Asana API are Rocq records.
    - A call on a client object appends one [event] to a trace. *)

From Stdlib Require Import ZArith String Ascii List DecimalString Lia.
From stdpp Require Import gmap strings list fin_maps.

Local Open Scope Z_scope.

(** ** Exceptions *)

Inductive exception : Type :=
  | ValueError
  | AssertionError (msg : string)
  | NameError (name : string).

Inductive result (A : Type) : Type :=
  | Ok (a : A)
  | Raise (e : exception).

Arguments Ok {A} a.
Arguments Raise {A} e.

#[global] Instance result_ret : MRet result := fun _ a => Ok a.

#[global] Instance result_bind : MBind result := fun _ _ k r =>
  match r with
  | Ok a => k a
  | Raise e => Raise e
  end.

(** ** Strings, [int] and [str] *)

(** The class [[0-9]] of a [str] pattern: the ten ASCII digits. *)
Definition is_digit (c : ascii) : bool :=
  (48 <=? nat_of_ascii c)%nat && (nat_of_ascii c <=? 57)%nat.

Definition digit_value (c : ascii) : Z := Z.of_nat (nat_of_ascii c) - 48.

Fixpoint int_digits (acc : Z) (s : string) : result Z :=
  match s with
  | EmptyString => Ok acc
  | String c s' =>
      if is_digit c then int_digits (10 * acc + digit_value c) s'
      else Raise ValueError
  end.

(** [int(s)] on the strings the group [number] can hold, which are made of
    ASCII digits only: the decimal value, and [ValueError] on the empty
    string. *)
Definition int (s : string) : result Z :=
  match s with
  | EmptyString => Raise ValueError
  | String _ _ => int_digits 0 s
  end.

(** [str(n)], as the f-string [f"{n}"] formats an [int]. *)
Definition str (n : Z) : string := NilZero.string_of_int (Z.to_int n).

(** [s[n:]] for [0 <= n]. *)
Fixpoint slice_from (n : nat) (s : string) : string :=
  match n, s with
  | O, _ => s
  | S _, EmptyString => EmptyString
  | S n', String _ s' => slice_from n' s'
  end.

(** ** The name versioner *)

(** [\]]: the next character is a closing bracket. *)
Definition match_close (s : string) : option string :=
  match s with
  | String c _ => if (c =? "]")%char then Some EmptyString else None
  | EmptyString => None
  end.

(** [[0-9]{0,k}\]] at the head of [s]: the quantifier is greedy, so a digit
    is consumed whenever the budget [k] allows it, and the matcher backtracks
    to no further digit when the rest of the pattern then fails. The result
    is the text of the group. *)
Fixpoint match_number (k : nat) (s : string) : option string :=
  match k, s with
  | S k', String c s' =>
      if is_digit c then
        match match_number k' s' with
        | Some ds => Some (String c ds)
        | None => match_close s
        end
      else match_close s
  | _, _ => match_close s
  end.

(** [DUPLICATED_TASK_PREFIX.match(name)] for
    [DUPLICATED_TASK_PREFIX = re.compile(r"^\[(?P<number>[0-9]{0,2})\]")]:
    [None] when there is no match, the group [number] otherwise. *)
Definition DUPLICATED_TASK_PREFIX_match (name : string) : option string :=
  match name with
  | String c s => if (c =? "[")%char then match_number 2 s else None
  | EmptyString => None
  end.

Definition get_duplicate_name (name : string) : result string :=
  match DUPLICATED_TASK_PREFIX_match name with
  | None => Ok ("[1] " +:+ name)
  | Some number =>
      n ← int number;
      let prefix := "[" +:+ str (n + 1) +:+ "]" in
      Ok (prefix +:+ " " +:+ slice_from 4 name)
  end.

(** ** The records of the Asana API *)

(** One placement of a task, as [get_tasks] returns it with the option fields
    [memberships.project.gid] and [memberships.section.gid]:
    [{"project": {"gid": ...}, "section": {"gid": ...}}]. *)
Record raw_membership : Type := {
  raw_project_gid : string;
  raw_section_gid : string
}.

(** One entry of the [memberships] payload of a create request:
    [{"project": ..., "section": ...}]. *)
Record membership : Type := {
  project : string;
  section : string
}.

(** One custom field of a task. [None] is Python's [None] (a JSON null);
    [enum_value] holds the gid of the chosen option. *)
Record custom_field : Type := {
  gid : string;
  type : string;
  number_value : option Z;
  text_value : option string;
  enum_value : option string
}.

Record task : Type := {
  task_gid : string;
  task_name : string;
  task_assignee : option string;
  task_memberships : list raw_membership;
  task_custom_fields : list custom_field
}.

(** A value of the [custom_fields] payload: a string, a number or [None]. *)
Inductive value : Type :=
  | VStr (s : string)
  | VInt (n : Z)
  | VNone.

Definition of_text (v : option string) : value :=
  match v with
  | Some s => VStr s
  | None => VNone
  end.

Definition of_number (v : option Z) : value :=
  match v with
  | Some n => VInt n
  | None => VNone
  end.

(** ** The membership rebuilder *)

(** The body of the loop of [generate_memberships]: one [append]. *)
Definition memberships_step (sprints_project_gid backlog_gid : string)
    (memberships : list membership) (m : raw_membership) : list membership :=
  if decide (raw_project_gid m = sprints_project_gid) then
    memberships ++ [{| project := sprints_project_gid; section := backlog_gid |}]
  else
    memberships ++ [{| project := raw_project_gid m; section := raw_section_gid m |}].

Definition generate_memberships (t : task)
    (sprints_project_gid backlog_gid : string) : list membership :=
  let raw := task_memberships t in
  fold_left (memberships_step sprints_project_gid backlog_gid) raw [].

(** ** The custom-field reconciler *)

(** The variables of [generate_custom_fields] that its loop updates. *)
Record cf_state : Type := {
  custom_fields : gmap string value;
  expected : Z;
  actual : Z
}.

Definition cf_init : cf_state :=
  {| custom_fields := ∅; expected := 0; actual := 0 |}.

Definition set_expected (v : Z) (st : cf_state) : cf_state :=
  {| custom_fields := custom_fields st; expected := v; actual := actual st |}.

Definition set_actual (v : Z) (st : cf_state) : cf_state :=
  {| custom_fields := custom_fields st; expected := expected st; actual := v |}.

Definition set_item (k : string) (v : value) (st : cf_state) : cf_state :=
  {| custom_fields := <[k := v]> (custom_fields st);
     expected := expected st; actual := actual st |}.

(** One iteration of the loop over [raw]. [continue] leaves the state as it
    is; the [assert False] of the last branch raises (assertions are
    executed: the interpreter is not run with [-O]). *)
Definition custom_field_step
    (expected_field_gid actual_field_gid sprint_number_field_gid : string)
    (st : cf_state) (f : custom_field) : result cf_state :=
  if decide (gid f = expected_field_gid) then
    match number_value f with
    | None => Ok st
    | Some v => Ok (set_expected v st)
    end
  else if decide (gid f = actual_field_gid) then
    match number_value f with
    | None => Ok st
    | Some v => Ok (set_actual v st)
    end
  else if decide (gid f = sprint_number_field_gid) then Ok st
  else if decide (type f = "enum") then
    match enum_value f with
    | None => Ok st
    | Some o => Ok (set_item (gid f) (VStr o) st)
    end
  else if decide (type f = "text") then
    Ok (set_item (gid f) (of_text (text_value f)) st)
  else if decide (type f = "number") then
    Ok (set_item (gid f) (of_number (number_value f)) st)
  else Raise (AssertionError "Something did not work as expected.").

(** A [for] loop whose body may raise: the first exception ends it. *)
Fixpoint for_each {St A : Type} (body : St → A → result St)
    (st : St) (l : list A) : result St :=
  match l with
  | [] => Ok st
  | x :: l' => st' ← body st x; for_each body st' l'
  end.

Definition generate_custom_fields (t : task)
    (expected_field_gid actual_field_gid sprint_number_field_gid : string)
    : result (gmap string value) :=
  let raw := task_custom_fields t in
  st ← for_each
         (custom_field_step expected_field_gid actual_field_gid
            sprint_number_field_gid)
         cf_init raw;
  Ok (<[expected_field_gid :=
          VInt (if (actual st <? expected st)%Z then expected st - actual st else 0)]>
        (custom_fields st)).

(** ** The Asana client and the two loops of the script *)

(** The identity of a client object. *)
Definition client_ref : Type := nat.

(** The dict that [duplicate_tasks] passes to [create_in_workspace]. *)
Record task_payload : Type := {
  payload_name : string;
  payload_assignee : option string;
  payload_memberships : list membership;
  payload_custom_fields : gmap string value
}.

(** The four calls on [client.tasks] that the script makes. [update_task]
    carries the dict of the fields to set. *)
Inductive request : Type :=
  | get_tasks (section_gid : string) (opt_fields : list string)
  | create_in_workspace (workspace_gid : string) (payload : task_payload)
  | delete_task (gid_of_task : string)
  | update_task (gid_of_task : string) (fields : gmap string bool).

(** A request together with the client object it was called on. *)
Definition event : Type := client_ref * request.

(** What the functions read from outside their parameters: the module-level
    name [client], which only the [__main__] block binds, and the tasks that
    a client's [get_tasks] returns for a section. *)
Record world : Type := {
  client : option client_ref;
  remote_tasks : client_ref → string → list task
}.

(** A computation that calls clients: the requests made so far, in order,
    and the value returned or the exception that ended it. The calls
    themselves return. *)
Record io (A : Type) : Type := IO {
  trace : list event;
  outcome : result A
}.

Arguments IO {A} trace outcome.
Arguments trace {A} _.
Arguments outcome {A} _.

#[global] Instance io_ret : MRet io := fun _ a => IO [] (Ok a).

#[global] Instance io_bind : MBind io := fun _ _ k m =>
  match outcome m with
  | Ok a => IO (trace m ++ trace (k a)) (outcome (k a))
  | Raise e => IO (trace m) (Raise e)
  end.

Definition call (c : client_ref) (rq : request) : io unit :=
  IO [(c, rq)] (Ok tt).

Definition lift {A : Type} (r : result A) : io A := IO [] r.

(** Evaluating the global name [client]. *)
Definition load_client (w : world) : io client_ref :=
  match client w with
  | Some c => IO [] (Ok c)
  | None => IO [] (Raise (NameError "client"))
  end.

Fixpoint for_each_io {A : Type} (body : A → io unit) (l : list A) : io unit :=
  match l with
  | [] => mret tt
  | x :: l' => _ ← body x; for_each_io body l'
  end.

Definition duplicate_opt_fields : list string :=
  ["name"; "custom_fields"; "memberships.section.gid";
   "memberships.project.gid"; "assignee"].

(** The body of the loop of [duplicate_tasks]. *)
Definition duplicate_task (w : world) (asana_client : client_ref)
    (workspace_gid sprints_project_gid backlog_gid : string)
    (expected_field_gid actual_field_gid sprint_number_field_gid : string)
    (t : task) : io unit :=
  let gid_of_task := task_gid t in
  name ← lift (get_duplicate_name (task_name t));
  let assignee := task_assignee t in
  let memberships := generate_memberships t sprints_project_gid backlog_gid in
  fields ← lift (generate_custom_fields t expected_field_gid actual_field_gid
                   sprint_number_field_gid);
  let payload :=
    {| payload_name := name;
       payload_assignee := assignee;
       payload_memberships := memberships;
       payload_custom_fields := fields |} in
  _ ← call asana_client (create_in_workspace workspace_gid payload);
  c ← load_client w;
  call c (delete_task gid_of_task).

Definition duplicate_tasks (w : world) (asana_client : client_ref)
    (workspace_gid sprints_project_gid backlog_gid section_gid : string)
    (expected_field_gid actual_field_gid sprint_number_field_gid : string)
    : io unit :=
  _ ← call asana_client (get_tasks section_gid duplicate_opt_fields);
  let section := remote_tasks w asana_client section_gid in
  for_each_io
    (duplicate_task w asana_client workspace_gid sprints_project_gid
       backlog_gid expected_field_gid actual_field_gid
       sprint_number_field_gid)
    section.

(** The dict [{"completed": True}]. *)
Definition completed_true : gmap string bool := {[ "completed" := true ]}.

Definition complete_tasks (w : world) (asana_client : client_ref)
    (section_gid : string) : io unit :=
  _ ← call asana_client (get_tasks section_gid []);
  let section := remote_tasks w asana_client section_gid in
  for_each_io
    (fun t => call asana_client (update_task (task_gid t) completed_true))
    section.

(** ** The [__main__] block *)

(** The outcome of reading [os.environ]: [os.environ[key]] raises [KeyError]
    for a key that is not set. *)
Inductive environ_result (A : Type) : Type :=
  | Found (a : A)
  | KeyError (key : string).

Arguments Found {A} a.
Arguments KeyError {A} key.

#[global] Instance environ_ret : MRet environ_result := fun _ a => Found a.

#[global] Instance environ_bind : MBind environ_result := fun _ _ k r =>
  match r with
  | Found a => k a
  | KeyError key => KeyError key
  end.

(** [os.environ[key]], the environment being the one [load_dotenv] leaves. *)
Definition environ_get (environ : gmap string string) (key : string)
    : environ_result string :=
  match environ !! key with
  | Some v => Found v
  | None => KeyError key
  end.

(** The module-level constants that the [__main__] block binds. *)
Record settings : Type := {
  ASANA_TOKEN : string;
  WORKSPACE_GID : string;
  SPRINTS_PROJECT_GID : string;
  BACKLOG_GID : string;
  DONE_GID : string;
  OTHER_GIDS : list string;
  EXPECTED_FIELD_GID : string;
  ACTUAL_FIELD_GID : string;
  SPRINT_NUMBER_FIELD_GID : string
}.

(** The reads of [os.environ], in the order of the source. *)
Definition read_settings (environ : gmap string string)
    : environ_result settings :=
  token ← environ_get environ "ASANA_TOKEN";
  workspace ← environ_get environ "BENDING_SPOONS_GID";
  sprints ← environ_get environ "TEST_SPRINTS_GID";
  backlog ← environ_get environ "TEST_BACKLOG_GID";
  done_gid ← environ_get environ "TEST_DONE_GID";
  sprint_backlog ← environ_get environ "TEST_SPRINT_BACKLOG_GID";
  in_progress ← environ_get environ "TEST_IN_PROGRESS_GID";
  blocked ← environ_get environ "TEST_BLOCKED_GID";
  under_review ← environ_get environ "TEST_UNDER_REVIEW_GID";
  expected_gid ← environ_get environ "EXPECTED_COST_FIELD_GID";
  actual_gid ← environ_get environ "ACTUAL_COST_FIELD_GID";
  sprint_number ← environ_get environ "SPRINT_NUBER_FIELD_GID";
  Found {| ASANA_TOKEN := token;
           WORKSPACE_GID := workspace;
           SPRINTS_PROJECT_GID := sprints;
           BACKLOG_GID := backlog;
           DONE_GID := done_gid;
           OTHER_GIDS := [sprint_backlog; in_progress; blocked; under_review];
           EXPECTED_FIELD_GID := expected_gid;
           ACTUAL_FIELD_GID := actual_gid;
           SPRINT_NUMBER_FIELD_GID := sprint_number |}.

(** What the functions called from the [__main__] block read from outside
    their parameters: the global name [client] is bound to the client [c]
    that the block created, and [listing] is what the one [get_tasks] call
    of the function returns. *)
Definition main_world (c : client_ref) (listing : list task) : world :=
  {| client := Some c; remote_tasks := λ _ _, listing |}.

(** The loop over [OTHER_GIDS]. [responses i] is what the [i]-th [get_tasks]
    call of the run returns. *)
Fixpoint duplicate_sections (c : client_ref) (cfg : settings)
    (responses : nat → list task) (i : nat) (gids : list string) : io unit :=
  match gids with
  | [] => mret tt
  | section_gid :: gids' =>
      _ ← duplicate_tasks (main_world c (responses i)) c
            (WORKSPACE_GID cfg) (SPRINTS_PROJECT_GID cfg) (BACKLOG_GID cfg)
            section_gid (EXPECTED_FIELD_GID cfg) (ACTUAL_FIELD_GID cfg)
            (SPRINT_NUMBER_FIELD_GID cfg);
      duplicate_sections c cfg responses (S i) gids'
  end.

(** The two statements after the client is created. *)
Definition run (c : client_ref) (cfg : settings)
    (responses : nat → list task) : io unit :=
  _ ← duplicate_sections c cfg responses 0 (OTHER_GIDS cfg);
  complete_tasks (main_world c (responses (length (OTHER_GIDS cfg)))) c
    (DONE_GID cfg).

(** The [__main__] block: [c] is the client object that
    [asana.Client.access_token] returns. *)
Definition main (environ : gmap string string) (c : client_ref)
    (responses : nat → list task) : environ_result (io unit) :=
  cfg ← read_settings environ;
  Found (run c cfg responses).

(** ** The words of the specification *)

Fixpoint all_digits (s : string) : bool :=
  match s with
  | EmptyString => true
  | String c s' => is_digit c && all_digits s'
  end.

(** "[name] begins with [[], 0-2 ASCII digits, []]", the digits being [d]. *)
Definition bracket_prefix (d name : string) : Prop :=
  (String.length d ≤ 2)%nat ∧ all_digits d = true ∧
  ∃ rest, name = "[" +:+ d +:+ "]" +:+ rest.

Definition begins_with_bracket_prefix (name : string) : Prop :=
  ∃ d, bracket_prefix d name.

(** "[name] begins with a bracketed integer prefix of 0-2 ASCII digits
    followed by a space". *)
Definition begins_with_bracket_prefix_and_space (name : string) : Prop :=
  ∃ d rest, (String.length d ≤ 2)%nat ∧ all_digits d = true ∧
    name = "[" +:+ d +:+ "] " +:+ rest.

(** "The last non-null numeric value of an input field whose id equals
    [id], defaulting to 0 when no such field exists or every such value is
    null". *)
Definition number_of (id : string) (f : custom_field) : option Z :=
  if decide (gid f = id) then number_value f else None.

Definition last_seen (id : string) (fields : list custom_field) : Z :=
  default 0 (last (omap (number_of id) fields)).

(** "The kind tag is in the set {enum, text, number}". *)
Definition known_kind (f : custom_field) : Prop :=
  type f = "enum" ∨ type f = "text" ∨ type f = "number".

(** "The field id is one of the three configured ids". *)
Definition configured (E A S : string) (f : custom_field) : Prop :=
  gid f = E ∨ gid f = A ∨ gid f = S.

(** The field [f] with another kind tag. *)
Definition with_type (ty : string) (f : custom_field) : custom_field :=
  {| gid := gid f; type := ty; number_value := number_value f;
     text_value := text_value f; enum_value := enum_value f |}.

(** The requests of a trace that were called on the client [c]. *)
Definition requests_on (c : client_ref) (tr : list event) : list request :=
  omap (fun ev : event => if decide (ev.1 = c) then Some ev.2 else None) tr.

Definition is_delete (rq : request) : bool :=
  match rq with
  | delete_task _ => true
  | _ => false
  end.

(** The payload that [duplicate_tasks] builds for a task, when the name and
    the custom fields can be computed. *)
Definition duplication_spec (sprints_project_gid backlog_gid : string)
    (E A S : string) (t : task) : result task_payload :=
  name ← get_duplicate_name (task_name t);
  fields ← generate_custom_fields t E A S;
  Ok {| payload_name := name;
        payload_assignee := task_assignee t;
        payload_memberships :=
          generate_memberships t sprints_project_gid backlog_gid;
        payload_custom_fields := fields |}.

(** The two requests that duplicating one task makes on the client [c]. *)
Definition create_then_delete (c : client_ref) (workspace_gid : string)
    (tp : task * task_payload) : list event :=
  [ (c, create_in_workspace workspace_gid tp.2); (c, delete_task (task_gid tp.1)) ].

(** ** Notions used by the further properties *)

(** [get_duplicate_name] applied [k] times, as the script does to a task that
    stays open for [k] sprints. *)
Fixpoint iterate_name (k : nat) (x : string) : result string :=
  match k with
  | O => Ok x
  | S k' => s ← iterate_name k' x; get_duplicate_name s
  end.

(** A string of [n] spaces. *)
Fixpoint spaces (n : nat) : string :=
  match n with
  | O => EmptyString
  | S n' => String " " (spaces n')
  end.

(** The number of spaces between the bracket and the name after [k]
    duplications: one up to ten, one more for each duplication after that. *)
Definition padding (k : nat) : nat := Nat.max 1 (k - 9).

(** The decimal numeral of [k] is made of one digit below ten and of two from
    ten on, and [int] reads it back. *)
Definition numeral_ok (k : nat) : bool :=
  let s := str (Z.of_nat k) in
  all_digits s &&
  (String.length s =? (if (k <? 10)%nat then 1 else 2))%nat &&
  match int s with
  | Ok n => (n =? Z.of_nat k)%Z
  | Raise _ => false
  end.

(** What a field that reaches the kind dispatch writes under its gid: the
    gid of the chosen option, the text or the number ([None] included for
    the last two); nothing for an enum without a chosen option. *)
Definition recorded (f : custom_field) : option value :=
  if decide (type f = "enum") then VStr <$> enum_value f
  else if decide (type f = "text") then Some (of_text (text_value f))
  else if decide (type f = "number") then Some (of_number (number_value f))
  else None.

Definition recorded_under (k : string) (f : custom_field) : option value :=
  if decide (gid f = k) then recorded f else None.

(** The task [t] with another list of custom fields. *)
Definition with_custom_fields (fields : list custom_field) (t : task) : task :=
  {| task_gid := task_gid t; task_name := task_name t;
     task_assignee := task_assignee t;
     task_memberships := task_memberships t;
     task_custom_fields := fields |}.

(** The environment keys that the [__main__] block reads, in its order. *)
Definition required_keys : list string :=
  [ "ASANA_TOKEN"; "BENDING_SPOONS_GID"; "TEST_SPRINTS_GID";
    "TEST_BACKLOG_GID"; "TEST_DONE_GID"; "TEST_SPRINT_BACKLOG_GID";
    "TEST_IN_PROGRESS_GID"; "TEST_BLOCKED_GID"; "TEST_UNDER_REVIEW_GID";
    "EXPECTED_COST_FIELD_GID"; "ACTUAL_COST_FIELD_GID";
    "SPRINT_NUBER_FIELD_GID" ].

(** The first of [keys] that the environment does not set. *)
Fixpoint first_missing (environ : gmap string string) (keys : list string)
    : option string :=
  match keys with
  | [] => None
  | k :: keys' =>
      match environ !! k with
      | None => Some k
      | Some _ => first_missing environ keys'
      end
  end.

(** The settings that a complete environment gives. *)
Definition settings_of (environ : gmap string string) : settings :=
  let get k := default "" (environ !! k) in
  {| ASANA_TOKEN := get "ASANA_TOKEN";
     WORKSPACE_GID := get "BENDING_SPOONS_GID";
     SPRINTS_PROJECT_GID := get "TEST_SPRINTS_GID";
     BACKLOG_GID := get "TEST_BACKLOG_GID";
     DONE_GID := get "TEST_DONE_GID";
     OTHER_GIDS :=
       [ get "TEST_SPRINT_BACKLOG_GID"; get "TEST_IN_PROGRESS_GID";
         get "TEST_BLOCKED_GID"; get "TEST_UNDER_REVIEW_GID" ];
     EXPECTED_FIELD_GID := get "EXPECTED_COST_FIELD_GID";
     ACTUAL_FIELD_GID := get "ACTUAL_COST_FIELD_GID";
     SPRINT_NUMBER_FIELD_GID := get "SPRINT_NUBER_FIELD_GID" |}.

(** The create on the client [c] and the delete on the client [g] that
    duplicating one task makes. *)
Definition create_and_delete (c g : client_ref) (workspace_gid : string)
    (tp : task * task_payload) : list event :=
  [ (c, create_in_workspace workspace_gid tp.2); (g, delete_task (task_gid tp.1)) ].

Definition is_update (rq : request) : bool :=
  match rq with
  | update_task _ _ => true
  | _ => false
  end.

(** Every request of [m] satisfies [P], and an exception that ends [m]
    satisfies [R]. *)
Definition io_sound {B : Type} (P : event → Prop) (R : exception → Prop)
    (m : io B) : Prop :=
  Forall P (trace m) ∧ ∀ e, outcome m = Raise e → R e.

(** The exceptions that computing a payload can raise. *)
Definition payload_error (e : exception) : Prop :=
  e = ValueError ∨ ∃ msg, e = AssertionError msg.

(** The requests of duplicating the section [gid] when every payload can be
    computed. *)
Definition section_trace (c : client_ref) (workspace_gid section_gid : string)
    (tasks : list task) (payloads : list task_payload) : list event :=
  (c, get_tasks section_gid duplicate_opt_fields) ::
  concat (map (create_and_delete c c workspace_gid) (zip tasks payloads)).

(** The requests of the loop over the sections [gids], the first of them
    being the [i]-th listing of the run, when every payload can be
    computed. *)
Fixpoint sections_trace (c : client_ref) (workspace_gid : string)
    (responses : nat → list task) (payloads : nat → list task_payload)
    (i : nat) (gids : list string) : list event :=
  match gids with
  | [] => []
  | section_gid :: gids' =>
      section_trace c workspace_gid section_gid (responses i) (payloads i) ++
      sections_trace c workspace_gid responses payloads (S i) gids'
  end.

(** A request on the client [c] that is not an update. *)
Definition duplication_event (c : client_ref) (ev : event) : Prop :=
  ev.1 = c ∧ is_update ev.2 = false.

(** ** Test data *)

Definition two_boards : task :=
  {| task_gid := "t1"; task_name := "Write report"; task_assignee := None;
     task_memberships :=
       [ {| raw_project_gid := "sprintProj"; raw_section_gid := "sectionOld" |};
         {| raw_project_gid := "otherProj"; raw_section_gid := "otherSection" |} ];
     task_custom_fields := [] |}.

Definition number_field (id : string) (v : option Z) : custom_field :=
  {| gid := id; type := "number"; number_value := v;
     text_value := None; enum_value := None |}.

Definition enum_field (id : string) (o : option string) : custom_field :=
  {| gid := id; type := "enum"; number_value := None;
     text_value := None; enum_value := o |}.

Definition task_with_fields (fields : list custom_field) : task :=
  {| task_gid := "t1"; task_name := "Write report"; task_assignee := None;
     task_memberships := []; task_custom_fields := fields |}.

(** The scenario of the specification: E = 5, A = 2, S = 7 and the enum
    field X with the option opt1 chosen. *)
Definition scenario_fields (E A S X : string) : list custom_field :=
  [ number_field E (Some 5); number_field A (Some 2);
    number_field S (Some 7); enum_field X (Some "opt1") ].

(** A field under the expected-cost id whose kind tag is not a known one. *)
Definition odd_expected_field : custom_field :=
  {| gid := "E"; type := "people"; number_value := Some 4;
     text_value := None; enum_value := None |}.

(** A field under no configured id whose kind tag is not a known one. *)
Definition odd_field : custom_field :=
  {| gid := "P"; type := "people"; number_value := None;
     text_value := None; enum_value := None |}.

Definition hello_task : task :=
  {| task_gid := "t1"; task_name := "Hello"; task_assignee := Some "u1";
     task_memberships :=
       [ {| raw_project_gid := "sprintProj"; raw_section_gid := "sectionOld" |} ];
     task_custom_fields := [ number_field "E" (Some 5); number_field "A" (Some 2) ] |}.

Definition hello_payload : task_payload :=
  {| payload_name := "[1] Hello"; payload_assignee := Some "u1";
     payload_memberships := [ {| project := "sprintProj"; section := "BL" |} ];
     payload_custom_fields := {[ "E" := VInt 3 ]} |}.

(** The module imported and [duplicate_tasks] called with a client of the
    caller's own: the [__main__] block has not run, so the global name
    [client] is unbound. The section holds one task. *)
Definition imported_world : world :=
  {| client := None; remote_tasks := λ _ _, [hello_task] |}.

(** The global name [client] bound to a client object (9) other than the one
    passed to the function (7). *)
Definition two_clients_world : world :=
  {| client := Some 9%nat; remote_tasks := λ _ _, [hello_task] |}.

Definition text_null_field (id : string) : custom_field :=
  {| gid := id; type := "text"; number_value := None;
     text_value := None; enum_value := None |}.

(** An environment that sets every key the script reads, and the
    sprint-number field under its correct spelling as well. *)
Definition full_environ : gmap string string :=
  list_to_map
    [ ("ASANA_TOKEN", "token"); ("BENDING_SPOONS_GID", "ws");
      ("TEST_SPRINTS_GID", "sprintProj"); ("TEST_BACKLOG_GID", "BL");
      ("TEST_DONE_GID", "done"); ("TEST_SPRINT_BACKLOG_GID", "s1");
      ("TEST_IN_PROGRESS_GID", "s2"); ("TEST_BLOCKED_GID", "s3");
      ("TEST_UNDER_REVIEW_GID", "s4"); ("EXPECTED_COST_FIELD_GID", "E");
      ("ACTUAL_COST_FIELD_GID", "A"); ("SPRINT_NUBER_FIELD_GID", "S");
      ("SPRINT_NUMBER_FIELD_GID", "S") ].

(** The same environment with the sprint-number field under its correct
    spelling only. *)
Definition well_spelled_environ : gmap string string :=
  delete "SPRINT_NUBER_FIELD_GID" full_environ.

(** The first section holds one task, the others none. *)
Definition one_task_responses (i : nat) : list task :=
  match i with
  | O => [hello_task]
  | _ => []
  end.

Definition one_task_payloads (i : nat) : list task_payload :=
  match i with
  | O => [hello_payload]
  | _ => []
  end.

(** The first section holds a task whose name begins with empty brackets;
    the done section holds one task. *)
Definition bad_name_task : task :=
  {| task_gid := "t2"; task_name := "[] x"; task_assignee := None;
     task_memberships := []; task_custom_fields := [] |}.

Definition failing_responses (i : nat) : list task :=
  match i with
  | O => [bad_name_task]
  | _ => [hello_task]
  end.

(** * Properties *)

(** ** The name versioner *)

Example get_duplicate_name_Hello : get_duplicate_name "Hello" = Ok "[1] Hello".
Proof. reflexivity. Qed.

Example get_duplicate_name_World : get_duplicate_name "[2] World" = Ok "[3] World".
Proof. reflexivity. Qed.

(** A two-digit number leaves the fourth character of the prefix in place. *)
Example get_duplicate_name_two_digits :
  get_duplicate_name "[12] World" = Ok "[13]  World".
Proof. reflexivity. Qed.

Lemma match_close_inv (s d : string) :
  match_close s = Some d → d = "" ∧ ∃ rest, s = "]" +:+ rest.
Proof.
  destruct s as [|c s']; simpl; [discriminate|].
  destruct (Ascii.eqb_spec c "]") as [->|_]; [|discriminate].
  intros [= <-]. split; [reflexivity|]. by exists s'.
Qed.

Lemma match_number_sound (k : nat) : ∀ s d,
  match_number k s = Some d →
  (String.length d ≤ k)%nat ∧ all_digits d = true ∧
  ∃ rest, s = d +:+ "]" +:+ rest.
Proof.
  induction k as [|k IH]; intros s d.
  - destruct s; cbn [match_number]; intros H;
      apply match_close_inv in H as [-> Hr]; simpl; auto with lia.
  - destruct s as [|c s'].
    { simpl. discriminate. }
    cbn [match_number]. destruct (is_digit c) eqn:Hc.
    + destruct (match_number k s') as [ds|] eqn:Hm.
      * intros [= <-]. destruct (IH _ _ Hm) as (Hl & Hd & rest & ->).
        simpl. rewrite Hc, Hd. split; [lia|]. split; [done|]. by exists rest.
      * intros H. apply match_close_inv in H as [-> Hr]. simpl. auto with lia.
    + intros H. apply match_close_inv in H as [-> Hr]. simpl. auto with lia.
Qed.

Lemma match_number_complete (k : nat) : ∀ d rest,
  (String.length d ≤ k)%nat → all_digits d = true →
  match_number k (d +:+ "]" +:+ rest) = Some d.
Proof.
  induction k as [|k IH]; intros [|c d] rest Hl Hd; simpl in Hl, Hd.
  - reflexivity.
  - lia.
  - reflexivity.
  - apply andb_true_iff in Hd as [Hc Hd].
    change (String c d +:+ "]" +:+ rest) with (String c (d +:+ "]" +:+ rest)).
    cbn [match_number]. rewrite Hc, IH by (done || lia). reflexivity.
Qed.

(** The matcher and the pattern as the specification words it agree. *)
Lemma DUPLICATED_TASK_PREFIX_match_Some (name d : string) :
  DUPLICATED_TASK_PREFIX_match name = Some d ↔ bracket_prefix d name.
Proof.
  unfold bracket_prefix. split.
  - unfold DUPLICATED_TASK_PREFIX_match. destruct name as [|c s]; [discriminate|].
    destruct (Ascii.eqb_spec c "[") as [->|_]; [|discriminate].
    intros H. apply match_number_sound in H as (Hl & Hd & rest & ->).
    split; [done|]. split; [done|]. by exists rest.
  - intros (Hl & Hd & rest & ->).
    change ("[" +:+ d +:+ "]" +:+ rest) with (String "[" (d +:+ "]" +:+ rest)).
    cbn [DUPLICATED_TASK_PREFIX_match]. change ("[" =? "[")%char with true.
    by apply match_number_complete.
Qed.

Lemma DUPLICATED_TASK_PREFIX_match_None (name : string) :
  DUPLICATED_TASK_PREFIX_match name = None ↔ ¬ begins_with_bracket_prefix name.
Proof.
  split.
  - intros H [d Hd]. apply DUPLICATED_TASK_PREFIX_match_Some in Hd. congruence.
  - intros H. destruct (DUPLICATED_TASK_PREFIX_match name) as [d|] eqn:Hm; [|done].
    exfalso. apply H. exists d. by apply DUPLICATED_TASK_PREFIX_match_Some.
Qed.

Lemma digit_value_range (c : ascii) : is_digit c = true → 0 ≤ digit_value c ≤ 9.
Proof.
  unfold is_digit, digit_value. intros H.
  apply andb_true_iff in H as [H1 H2].
  apply Nat.leb_le in H1. apply Nat.leb_le in H2. lia.
Qed.

(** [int] succeeds on one or two digits, with a value below one hundred. *)
Lemma int_digits_value (d : string) :
  (1 ≤ String.length d ≤ 2)%nat → all_digits d = true →
  ∃ n, int d = Ok n ∧ 0 ≤ n ≤ 99.
Proof.
  destruct d as [|a [|b [|c d]]]; simpl; intros Hl Hd; try lia.
  - rewrite andb_true_r in Hd. rewrite Hd.
    pose proof (digit_value_range a Hd). eexists. split; [reflexivity|lia].
  - rewrite andb_true_r in Hd. apply andb_true_iff in Hd as [Ha Hb].
    rewrite Ha, Hb.
    pose proof (digit_value_range a Ha). pose proof (digit_value_range b Hb).
    eexists. split; [reflexivity|lia].
Qed.

Lemma append_cons (c : ascii) (s1 s2 : string) :
  String c s1 +:+ s2 = String c (s1 +:+ s2).
Proof. reflexivity. Qed.

Lemma append_assoc (s1 s2 s3 : string) : (s1 +:+ s2) +:+ s3 = s1 +:+ (s2 +:+ s3).
Proof.
  induction s1 as [|c s1 IH]; [reflexivity|].
  rewrite !append_cons. f_equal. exact IH.
Qed.

(** [s[n:]] is the substring of [s] from position [n] to the end. *)
Lemma slice_from_substring (n : nat) : ∀ s,
  slice_from n s = substring n (String.length s - n) s.
Proof.
  induction n as [|n IH]; intros [|c s]; simpl; try reflexivity.
  - f_equal. clear. induction s as [|c s IH]; simpl; [reflexivity|by rewrite <- IH].
  - apply IH.
Qed.

Lemma get_duplicate_name_no_prefix (name : string) :
  ¬ begins_with_bracket_prefix name →
  get_duplicate_name name = Ok ("[1] " +:+ name).
Proof.
  intros H. apply DUPLICATED_TASK_PREFIX_match_None in H.
  unfold get_duplicate_name. by rewrite H.
Qed.

Lemma get_duplicate_name_prefix (name d : string) (n : Z) :
  bracket_prefix d name → int d = Ok n →
  get_duplicate_name name =
    Ok ("[" +:+ str (n + 1) +:+ "] " +:+ slice_from 4 name).
Proof.
  intros H Hn. apply DUPLICATED_TASK_PREFIX_match_Some in H.
  unfold get_duplicate_name. rewrite H, Hn. cbn [mbind result_bind].
  f_equal. rewrite !append_assoc. reflexivity.
Qed.

(** The only names on which [get_duplicate_name] raises are those that begin
    with an empty pair of brackets. *)
Lemma get_duplicate_name_raises (name : string) (e : exception) :
  get_duplicate_name name = Raise e ↔
  e = ValueError ∧ ∃ rest, name = "[]" +:+ rest.
Proof.
  unfold get_duplicate_name.
  destruct (DUPLICATED_TASK_PREFIX_match name) as [d|] eqn:Hm.
  - apply DUPLICATED_TASK_PREFIX_match_Some in Hm as Hp.
    destruct Hp as (Hl & Hd & rest & ->).
    destruct d as [|a d'].
    + simpl. split; [intros [= <-]; eauto|]. by intros [-> _].
    + destruct (int_digits_value (String a d')) as (n & Hn & _);
        [simpl in *; lia|done|].
      rewrite Hn. cbn [mbind result_bind]. split; [discriminate|].
      intros [_ [r Hr]]. simpl in Hr. injection Hr as Ha _. subst a.
      simpl in Hd. discriminate.
  - split; [discriminate|]. intros [_ [rest ->]]. simpl in Hm. discriminate.
Qed.

(** C1. The code breaks the claim at two kinds of names. ["[1]x"] has no
    space after its bracket, so it should get the prefix ["[1] "]; the
    pattern matches it all the same, and [name[4:]], which takes the fourth
    character for the separating space, throws a character of the name away:
    the result is ["[2] "], and ["[1]st draft"] becomes ["[2] t draft"].
    ["[] x"] begins with a bracketed prefix of no digit followed by a space,
    so a name with an incremented number is due; [int("")] raises
    instead. *)
Theorem get_duplicate_name_loses_name :
  ¬ begins_with_bracket_prefix_and_space "[1]x" ∧
  get_duplicate_name "[1]x" = Ok "[2] " ∧
  get_duplicate_name "[1]x" ≠ Ok ("[1] " +:+ "[1]x") ∧
  get_duplicate_name "[1]st draft" = Ok "[2] t draft" ∧
  begins_with_bracket_prefix_and_space "[] x" ∧
  get_duplicate_name "[] x" = Raise ValueError.
Proof.
  split.
  { intros (d & rest & Hl & Hd & H).
    destruct d as [|a [|b [|c d]]]; simpl in Hl; try lia; discriminate H. }
  split; [reflexivity|]. split; [discriminate|]. split; [reflexivity|].
  split; [|reflexivity].
  exists "", "x". split; [simpl; lia|]. split; reflexivity.
Qed.

(** C2. On a name that begins with an empty pair of brackets the pattern
    matches with an empty group, and [int("")] raises [ValueError]: no name
    is returned. *)
Theorem get_duplicate_name_empty_brackets :
  get_duplicate_name "[] x" = Raise ValueError ∧
  ∀ rest, get_duplicate_name ("[]" +:+ rest) = Raise ValueError.
Proof. split; [reflexivity|]. intros rest. reflexivity. Qed.

(** C9. Applied twice to a name without a bracketed prefix, the function
    yields ["[2] "] followed by the name. *)
Theorem get_duplicate_name_twice (x : string) :
  ¬ begins_with_bracket_prefix x →
  get_duplicate_name x = Ok ("[1] " +:+ x) ∧
  get_duplicate_name x ≫= get_duplicate_name = Ok ("[2] " +:+ x).
Proof.
  intros H. rewrite (get_duplicate_name_no_prefix x H).
  split; reflexivity.
Qed.

Lemma get_duplicate_name_twice_witness :
  get_duplicate_name "Hello" = Ok ("[1] " +:+ "Hello") ∧
  get_duplicate_name "Hello" ≫= get_duplicate_name = Ok ("[2] " +:+ "Hello").
Proof.
  apply (get_duplicate_name_twice "Hello").
  intros (d & _ & _ & rest & H). simpl in H. discriminate H.
Defined.

(** ** The membership rebuilder *)

Lemma memberships_step_fold (sp bl : string) (raw : list raw_membership) :
  ∀ acc,
  fold_left (memberships_step sp bl) raw acc =
    acc ++ fold_left (memberships_step sp bl) raw [].
Proof.
  induction raw as [|m raw IH]; intros acc; simpl.
  - by rewrite app_nil_r.
  - rewrite IH. rewrite (IH (memberships_step sp bl [] m)).
    rewrite app_assoc. f_equal.
    unfold memberships_step. by case_decide.
Qed.

Lemma memberships_fold_length (sp bl : string) (raw : list raw_membership) :
  length (fold_left (memberships_step sp bl) raw []) = length raw.
Proof.
  induction raw as [|m raw IH]; simpl; [reflexivity|].
  rewrite memberships_step_fold, length_app, IH.
  unfold memberships_step. by case_decide.
Qed.

Lemma memberships_fold_lookup (sp bl : string) (raw : list raw_membership) :
  ∀ i m, raw !! i = Some m →
  ∃ m', fold_left (memberships_step sp bl) raw [] !! i = Some m' ∧
    (raw_project_gid m = sp → project m' = sp ∧ section m' = bl) ∧
    (raw_project_gid m ≠ sp →
       project m' = raw_project_gid m ∧ section m' = raw_section_gid m).
Proof.
  induction raw as [|x raw IH]; intros i m Hi; [by destruct i|].
  simpl. rewrite memberships_step_fold.
  destruct i as [|i]; simpl in Hi.
  - injection Hi as ->. unfold memberships_step.
    case_decide; simpl; eexists; (split; [reflexivity|]); simpl; split; done.
  - destruct (IH i m Hi) as (m' & Hm' & H1 & H2). exists m'.
    split; [|done]. unfold memberships_step. by case_decide.
Qed.

(** C5. The rebuilt list has the length and the order of the input; an entry
    on the sprint board becomes (sprint board, backlog section), any other
    entry keeps its project and its section; no entries give no entries. *)
Theorem generate_memberships_spec (t : task) (sp bl : string) :
  length (generate_memberships t sp bl) = length (task_memberships t) ∧
  (∀ i m, task_memberships t !! i = Some m →
     ∃ m', generate_memberships t sp bl !! i = Some m' ∧
       (raw_project_gid m = sp → project m' = sp ∧ section m' = bl) ∧
       (raw_project_gid m ≠ sp →
          project m' = raw_project_gid m ∧ section m' = raw_section_gid m)) ∧
  (task_memberships t = [] → generate_memberships t sp bl = []).
Proof.
  unfold generate_memberships. cbn zeta. split; [|split].
  - apply memberships_fold_length.
  - apply memberships_fold_lookup.
  - by intros ->.
Qed.

Example generate_memberships_two_boards :
  generate_memberships two_boards "sprintProj" "BL" =
    [ {| project := "sprintProj"; section := "BL" |};
      {| project := "otherProj"; section := "otherSection" |} ].
Proof. reflexivity. Qed.

Lemma generate_memberships_spec_witness :
  ∃ m', generate_memberships two_boards "sprintProj" "BL" !! 0%nat = Some m' ∧
    (raw_project_gid
       {| raw_project_gid := "sprintProj"; raw_section_gid := "sectionOld" |}
       = "sprintProj" → project m' = "sprintProj" ∧ section m' = "BL") ∧
    (raw_project_gid
       {| raw_project_gid := "sprintProj"; raw_section_gid := "sectionOld" |}
       ≠ "sprintProj" →
     project m' = "sprintProj" ∧ section m' = "sectionOld").
Proof.
  apply (proj1 (proj2 (generate_memberships_spec two_boards "sprintProj" "BL"))
           0%nat).
  reflexivity.
Defined.

(** ** The custom-field reconciler *)

Section Reconciler.
Variables E A S : string.

Local Abbreviation step := (custom_field_step E A S).

Local Ltac step_cases :=
  unfold custom_field_step, number_of in *;
  repeat case_match; simplify_eq; simpl; try done.

Lemma step_expected (st st1 : cf_state) (f : custom_field) :
  step st f = Ok st1 →
  expected st1 = default (expected st) (number_of E f).
Proof. intros H. step_cases. Qed.

Lemma step_actual (st st1 : cf_state) (f : custom_field) :
  E ≠ A → step st f = Ok st1 →
  actual st1 = default (actual st) (number_of A f).
Proof. intros HEA H. step_cases. Qed.

(** No iteration writes an entry under one of the three configured ids. *)
Lemma step_configured_keys (st st1 : cf_state) (f : custom_field) (k : string) :
  step st f = Ok st1 → k = E ∨ k = A ∨ k = S →
  custom_fields st1 !! k = custom_fields st !! k.
Proof.
  intros H Hk. step_cases;
    rewrite lookup_insert_ne; try done; intuition congruence.
Qed.

(** An iteration raises only in its last branch. *)
Lemma step_raises (st : cf_state) (f : custom_field) (e : exception) :
  step st f = Raise e ↔
  e = AssertionError "Something did not work as expected." ∧
  ¬ configured E A S f ∧ ¬ known_kind f.
Proof.
  unfold configured, known_kind. split.
  - intros H. step_cases. intuition congruence.
  - intros (-> & Hc & Hk). unfold custom_field_step.
    repeat case_decide; try done; exfalso; intuition congruence.
Qed.

Lemma default_last_cons {B C : Type} (g : B → option C) (d : C) (x : B)
    (l : list B) :
  default d (last (omap g (x :: l))) =
    default (default d (g x)) (last (omap g l)).
Proof.
  change (omap g (x :: l))
    with (match g x with Some y => y :: omap g l | None => omap g l end).
  destruct (g x) as [v|]; [|reflexivity].
  rewrite last_cons. by destruct (last (omap g l)).
Qed.

Lemma for_each_seen (l : list custom_field) : ∀ st st',
  for_each step st l = Ok st' →
  expected st' = default (expected st) (last (omap (number_of E) l)) ∧
  (E ≠ A →
     actual st' = default (actual st) (last (omap (number_of A) l))).
Proof.
  induction l as [|f l IH]; intros st st' H.
  - simpl in H. by injection H as <-.
  - cbn [for_each] in H. destruct (step st f) as [st1|e] eqn:Hs;
      cbn [mbind result_bind] in H; [|discriminate].
    destruct (IH _ _ H) as [He Ha]. rewrite !default_last_cons. split.
    + by rewrite He, (step_expected _ _ _ Hs).
    + intros HEA. by rewrite (Ha HEA), (step_actual _ _ _ HEA Hs).
Qed.

Lemma for_each_configured_keys (l : list custom_field) (k : string) :
  k = E ∨ k = A ∨ k = S → ∀ st st',
  for_each step st l = Ok st' →
  custom_fields st' !! k = custom_fields st !! k.
Proof.
  intros Hk. induction l as [|f l IH]; intros st st' H.
  - simpl in H. by injection H as <-.
  - cbn [for_each] in H. destruct (step st f) as [st1|e] eqn:Hs;
      cbn [mbind result_bind] in H; [|discriminate].
    rewrite (IH _ _ H). by apply step_configured_keys with f.
Qed.

(** The loop raises exactly when some field is outside the three
    configured ids and of no known kind. *)
Lemma for_each_raises (l : list custom_field) : ∀ st e,
  for_each step st l = Raise e ↔
  e = AssertionError "Something did not work as expected." ∧
  ∃ f, f ∈ l ∧ ¬ configured E A S f ∧ ¬ known_kind f.
Proof.
  induction l as [|f l IH]; intros st e.
  - simpl. split; [discriminate|]. intros (_ & f & Hf & _).
    by apply elem_of_nil in Hf.
  - cbn [for_each]. destruct (step st f) as [st1|e1] eqn:Hs;
      cbn [mbind result_bind].
    + rewrite IH. split.
      * intros (-> & g & Hg & Hc). split; [done|]. exists g.
        split; [by apply elem_of_cons; right|done].
      * intros (-> & g & Hg & Hc). split; [done|].
        apply elem_of_cons in Hg as [->|Hg]; [|by exists g].
        assert (step st f =
                  Raise (AssertionError "Something did not work as expected."))
          as Hr by (by apply step_raises).
        congruence.
    + apply step_raises in Hs as (-> & Hc). split.
      * intros [= <-]. split; [done|]. exists f.
        split; [apply elem_of_cons; by left|done].
      * by intros (-> & _).
Qed.

Lemma generate_custom_fields_raises (t : task) (e : exception) :
  generate_custom_fields t E A S = Raise e ↔
  e = AssertionError "Something did not work as expected." ∧
  ∃ f, f ∈ task_custom_fields t ∧ ¬ configured E A S f ∧ ¬ known_kind f.
Proof.
  rewrite <- for_each_raises with (st := cf_init).
  unfold generate_custom_fields. cbn zeta.
  destruct (for_each step cf_init (task_custom_fields t));
    cbn [mbind result_bind]; [split; discriminate|].
  split; intros [= ->]; reflexivity.
Qed.

(** When every field is under a configured id or of a known kind, a
    mapping is returned. *)
Lemma generate_custom_fields_returns (t : task) :
  (∀ f, f ∈ task_custom_fields t → configured E A S f ∨ known_kind f) →
  ∃ m, generate_custom_fields t E A S = Ok m.
Proof.
  intros H. destruct (generate_custom_fields t E A S) as [m|e] eqn:Hg;
    [by exists m|].
  apply generate_custom_fields_raises in Hg as (_ & f & Hf & Hc & Hk).
  destruct (H f Hf); contradiction.
Qed.

Lemma generate_custom_fields_inv (t : task) (m : gmap string value) :
  generate_custom_fields t E A S = Ok m →
  ∃ st, for_each step cf_init (task_custom_fields t) = Ok st ∧
    m = <[E := VInt (if (actual st <? expected st)%Z
                     then expected st - actual st else 0)]>
          (custom_fields st).
Proof.
  unfold generate_custom_fields. cbn zeta.
  destruct (for_each step cf_init (task_custom_fields t)) as [st|e];
    cbn [mbind result_bind]; [|discriminate].
  intros [= <-]. by exists st.
Qed.
End Reconciler.

Example scenario_null_expected :
  generate_custom_fields
    (task_with_fields
       [ number_field "E" None; number_field "A" (Some 2);
         number_field "S" (Some 7); enum_field "X" (Some "opt1") ])
    "E" "A" "S"
  = Ok (<["E" := VInt 0]> {["X" := VStr "opt1"]}).
Proof. vm_compute. reflexivity. Qed.

(** C3 (as amended). When the expected-cost id and the actual-cost id differ,
    a returned mapping takes the expected-cost id to
    max(expected-seen - actual-seen, 0), each of the two being the last
    non-null number under its id, or 0; and the scenario E = 5, A = 2, S = 7,
    X = opt1 (four distinct ids) returns exactly {E: 3, X: "opt1"}. *)
Theorem generate_custom_fields_expected (E A S : string) :
  E ≠ A →
  (∀ t m, generate_custom_fields t E A S = Ok m →
     m !! E =
       Some (VInt (Z.max (last_seen E (task_custom_fields t)
                          - last_seen A (task_custom_fields t)) 0))) ∧
  (∀ X t, S ≠ E → S ≠ A → X ≠ E → X ≠ A → X ≠ S →
     task_custom_fields t = scenario_fields E A S X →
     generate_custom_fields t E A S =
       Ok (<[E := VInt 3]> {[X := VStr "opt1"]})).
Proof.
  intros HEA. split.
  - intros t m Hm.
    apply generate_custom_fields_inv in Hm as (st & Hst & ->).
    destruct (for_each_seen E A S _ _ _ Hst) as [He Ha].
    specialize (Ha HEA). simpl in He, Ha.
    rewrite lookup_insert_eq. unfold last_seen. rewrite <- He, <- Ha.
    do 2 f_equal. destruct (Z.ltb_spec (actual st) (expected st)); lia.
  - intros X t HSE HSA HXE HXA HXS Hf.
    unfold generate_custom_fields. rewrite Hf.
    assert (A ≠ E) by congruence.
    unfold scenario_fields, custom_field_step. simpl.
    repeat (cbn [mbind result_bind];
            first [rewrite decide_True by done | rewrite decide_False by done]).
    cbn [mbind result_bind]. simpl. rewrite insert_empty. reflexivity.
Qed.

Lemma generate_custom_fields_expected_witness :
  generate_custom_fields (task_with_fields (scenario_fields "E" "A" "S" "X"))
    "E" "A" "S"
  = Ok (<["E" := VInt 3]> {["X" := VStr "opt1"]}).
Proof.
  assert (HEA : "E" ≠ "A") by discriminate.
  apply (proj2 (generate_custom_fields_expected "E" "A" "S" HEA) "X");
    try discriminate.
  reflexivity.
Defined.

(** C3 (as stated) fails when one id is configured for both costs: the first
    branch takes every such field, [actual] stays 0, and the value 5 is
    carried forward where the claim computes max(5 - 5, 0) = 0. *)
Lemma generate_custom_fields_same_id_counterexample :
  generate_custom_fields (task_with_fields [number_field "E" (Some 5)])
    "E" "E" "S"
  = Ok {["E" := VInt 5]} ∧
  Z.max (last_seen "E" [number_field "E" (Some 5)]
         - last_seen "E" [number_field "E" (Some 5)]) 0 = 0 ∧
  ({["E" := VInt 5]} : gmap string value) !! "E" ≠ Some (VInt 0).
Proof.
  split; [vm_compute; reflexivity|]. split; [reflexivity|].
  rewrite lookup_singleton_eq. discriminate.
Qed.

(** C4. With the three configured ids pairwise distinct, a returned mapping
    has no entry under the sprint-number id, has one under the expected-cost
    id, and has none under the actual-cost id. *)
Theorem generate_custom_fields_keys (E A S : string) (t : task)
    (m : gmap string value) :
  E ≠ A → E ≠ S → A ≠ S →
  generate_custom_fields t E A S = Ok m →
  m !! S = None ∧ is_Some (m !! E) ∧ m !! A = None.
Proof.
  intros HEA HES HAS Hm.
  apply generate_custom_fields_inv in Hm as (st & Hst & ->).
  pose proof (for_each_configured_keys E A S (task_custom_fields t)) as Hk.
  split; [|split].
  - rewrite lookup_insert_ne by done.
    rewrite (Hk S) with (st := cf_init) by (done || auto). apply lookup_empty.
  - rewrite lookup_insert_eq. by eexists.
  - rewrite lookup_insert_ne by done.
    rewrite (Hk A) with (st := cf_init) by (done || auto). apply lookup_empty.
Qed.

Lemma generate_custom_fields_keys_witness :
  let m : gmap string value := <["E" := VInt 3]> {["X" := VStr "opt1"]} in
  m !! "S" = None ∧ is_Some (m !! "E") ∧ m !! "A" = None.
Proof.
  apply (generate_custom_fields_keys "E" "A" "S"
           (task_with_fields (scenario_fields "E" "A" "S" "X")));
    try discriminate.
  vm_compute. reflexivity.
Defined.

(** C7. A field under none of the three configured ids whose kind tag is
    none of enum, text, number makes [generate_custom_fields] raise the
    assertion error: no mapping is returned. *)
Theorem generate_custom_fields_unknown_kind (E A S : string) (t : task)
    (f : custom_field) :
  f ∈ task_custom_fields t →
  gid f ≠ E → gid f ≠ A → gid f ≠ S →
  type f ≠ "enum" → type f ≠ "text" → type f ≠ "number" →
  generate_custom_fields t E A S =
    Raise (AssertionError "Something did not work as expected.").
Proof.
  intros Hf HE HA HS H1 H2 H3.
  apply generate_custom_fields_raises. split; [reflexivity|].
  exists f. split; [done|].
  unfold configured, known_kind. split; intuition congruence.
Qed.

Lemma generate_custom_fields_unknown_kind_witness :
  generate_custom_fields
    (task_with_fields [number_field "E" (Some 5); odd_field]) "E" "A" "S" =
    Raise (AssertionError "Something did not work as expected.").
Proof.
  apply (generate_custom_fields_unknown_kind "E" "A" "S" _ odd_field);
    try discriminate.
  simpl. apply elem_of_cons. right. apply elem_of_cons. by left.
Defined.

(** C10. A field under one of the three configured ids is handled by the
    id-based branches alone: the iteration returns, it reads nothing but the
    number (or skips), its kind tag has no influence, and so whenever
    [generate_custom_fields] raises the cause is a field under none of the
    three ids. *)
Theorem configured_ids_take_precedence (E A S : string) :
  (∀ st f, configured E A S f →
     custom_field_step E A S st f =
       Ok (if decide (gid f = E) then
             from_option (λ v, set_expected v st) st (number_value f)
           else if decide (gid f = A) then
             from_option (λ v, set_actual v st) st (number_value f)
           else st) ∧
     ∀ ty, custom_field_step E A S st (with_type ty f) =
             custom_field_step E A S st f) ∧
  (∀ t e, generate_custom_fields t E A S = Raise e →
     ∃ f, f ∈ task_custom_fields t ∧ ¬ configured E A S f ∧ ¬ known_kind f).
Proof.
  split.
  - intros st f Hc. unfold configured in Hc. split.
    + unfold custom_field_step.
      repeat case_decide; try (exfalso; intuition congruence);
        by destruct (number_value f).
    + intros ty. unfold custom_field_step, with_type. simpl.
      repeat case_decide; try done; exfalso; intuition congruence.
  - intros t e H. by apply generate_custom_fields_raises in H as [_ H].
Qed.

Lemma configured_ids_take_precedence_witness :
  custom_field_step "E" "A" "S" cf_init odd_expected_field =
    Ok (set_expected 4 cf_init) ∧
  ∀ ty, custom_field_step "E" "A" "S" cf_init (with_type ty odd_expected_field) =
          custom_field_step "E" "A" "S" cf_init odd_expected_field.
Proof.
  apply (proj1 (configured_ids_take_precedence "E" "A" "S") cf_init
           odd_expected_field).
  left. reflexivity.
Defined.

(** ** The two loops of the script *)

Lemma io_bind_call {B : Type} (c : client_ref) (rq : request) (k : unit → io B) :
  call c rq ≫= k = IO ((c, rq) :: trace (k tt)) (outcome (k tt)).
Proof. reflexivity. Qed.

Lemma complete_loop (c : client_ref) (l : list task) :
  for_each_io (λ t, call c (update_task (task_gid t) completed_true)) l =
    IO (map (λ t, (c, update_task (task_gid t) completed_true)) l) (Ok tt).
Proof.
  induction l as [|t l IH]; [reflexivity|].
  cbn [for_each_io]. rewrite io_bind_call, IH. reflexivity.
Qed.

(** C8. [complete_tasks] lists the section and then makes, for each task of
    the listing in order, one [update_task] request on the client it was
    given, for that task's gid, whose dict has the single key ["completed"]
    with the value [True]; it makes no other request. *)
Theorem complete_tasks_spec (w : world) (c : client_ref) (section_gid : string) :
  complete_tasks w c section_gid =
    IO ((c, get_tasks section_gid []) ::
        map (λ t, (c, update_task (task_gid t) completed_true))
          (remote_tasks w c section_gid))
       (Ok tt) ∧
  dom completed_true = ({["completed"]} : gset string) ∧
  completed_true !! "completed" = Some true.
Proof.
  split; [|split].
  - unfold complete_tasks. rewrite io_bind_call. cbn zeta.
    by rewrite complete_loop.
  - unfold completed_true. apply dom_singleton_L.
  - unfold completed_true. apply lookup_singleton_eq.
Qed.

Lemma duplicate_task_ok (w : world) (c : client_ref)
    (ws sp bl E A S : string) (t : task) (p : task_payload) :
  client w = Some c → duplication_spec sp bl E A S t = Ok p →
  duplicate_task w c ws sp bl E A S t =
    IO (create_then_delete c ws (t, p)) (Ok tt).
Proof.
  intros Hc Hp. unfold duplication_spec in Hp.
  unfold duplicate_task, load_client. rewrite Hc. cbn zeta.
  destruct (get_duplicate_name (task_name t)) as [n|]; [|discriminate].
  cbn [mbind result_bind] in Hp.
  destruct (generate_custom_fields t E A S) as [m|]; [|discriminate].
  cbn [mbind result_bind] in Hp. injection Hp as <-. reflexivity.
Qed.

(** When the script runs as [__main__], the global [client] is the client
    passed to [duplicate_tasks]; then, as long as every name and every
    custom-field mapping can be computed, each task of the listing gives
    one create followed by one delete, in the order of the listing. *)
Lemma duplicate_tasks_main (w : world) (c : client_ref)
    (ws sp bl section_gid E A S : string) (payloads : list task_payload) :
  client w = Some c →
  Forall2 (λ t p, duplication_spec sp bl E A S t = Ok p)
    (remote_tasks w c section_gid) payloads →
  duplicate_tasks w c ws sp bl section_gid E A S =
    IO ((c, get_tasks section_gid duplicate_opt_fields) ::
        concat (map (create_then_delete c ws)
                  (zip (remote_tasks w c section_gid) payloads)))
       (Ok tt).
Proof.
  intros Hc HF. unfold duplicate_tasks. rewrite io_bind_call. cbn zeta.
  induction HF as [|t p ts ps Hp HF IH]; [reflexivity|].
  cbn [for_each_io]. rewrite (duplicate_task_ok _ _ _ _ _ _ _ _ _ _ Hc Hp).
  injection IH as IHt IHo.
  unfold mbind, io_bind. cbn [outcome trace]. rewrite IHt, IHo. reflexivity.
Qed.

(** C6. Imported and called with a client of the caller's own (7), for a
    section of one task, [duplicate_tasks] submits the create on that client
    and then raises [NameError] on the global name [client]: no delete is
    made. With the global name bound to another client (9), the delete goes
    to that other client, and the client passed in receives none. *)
Theorem duplicate_tasks_deletes_on_global_client :
  duplicate_tasks imported_world 7%nat "ws" "sprintProj" "BL" "sec" "E" "A" "S" =
    IO [ (7%nat, get_tasks "sec" duplicate_opt_fields);
         (7%nat, create_in_workspace "ws" hello_payload) ]
       (Raise (NameError "client")) ∧
  trace (duplicate_tasks two_clients_world 7%nat "ws" "sprintProj" "BL" "sec"
           "E" "A" "S") =
    [ (7%nat, get_tasks "sec" duplicate_opt_fields);
      (7%nat, create_in_workspace "ws" hello_payload);
      (9%nat, delete_task "t1") ] ∧
  filter is_delete
    (requests_on 7%nat
       (trace (duplicate_tasks two_clients_world 7%nat "ws" "sprintProj" "BL"
                 "sec" "E" "A" "S"))) = [].
Proof. split; [|split]; vm_compute; reflexivity. Qed.

(** * Further properties *)

(** ** The name versioner *)

Lemma numeral_spec (k : Z) :
  0 ≤ k ≤ 99 →
  all_digits (str k) = true ∧
  String.length (str k) = (if (k <? 10)%Z then 1 else 2)%nat ∧
  int (str k) = Ok k.
Proof.
  intros Hk.
  assert (Hall : forallb numeral_ok (seq 0 100) = true) by (vm_compute; reflexivity).
  rewrite forallb_forall in Hall.
  assert (Hin : In (Z.to_nat k) (seq 0 100)) by (apply in_seq; lia).
  apply Hall in Hin. unfold numeral_ok in Hin. cbn zeta in Hin.
  rewrite Z2Nat.id in Hin by lia.
  apply andb_true_iff in Hin as [Hin Hint].
  apply andb_true_iff in Hin as [Hd Hl].
  apply Nat.eqb_eq in Hl. split; [done|]. split.
  - rewrite Hl. destruct (Z.ltb_spec k 10), (Nat.ltb_spec (Z.to_nat k) 10);
      try reflexivity; lia.
  - destruct (int (str k)) as [n|]; [|discriminate].
    apply Z.eqb_eq in Hint. by subst.
Qed.

Lemma get_duplicate_name_one_digit (a : ascii) (tail : string) :
  is_digit a = true →
  get_duplicate_name (String "[" (String a (String "]" tail))) =
    Ok ("[" +:+ str (digit_value a + 1) +:+ "] " +:+ slice_from 1 tail).
Proof.
  intros Ha.
  rewrite (get_duplicate_name_prefix _ (String a "") (digit_value a)).
  - reflexivity.
  - split; [simpl; lia|]. split; [simpl; by rewrite Ha|]. by exists tail.
  - simpl. by rewrite Ha.
Qed.

Lemma get_duplicate_name_two_digit (a b : ascii) (tail : string) :
  is_digit a = true → is_digit b = true →
  get_duplicate_name (String "[" (String a (String b (String "]" tail)))) =
    Ok ("[" +:+ str (10 * digit_value a + digit_value b + 1) +:+ "] " +:+ tail).
Proof.
  intros Ha Hb.
  rewrite (get_duplicate_name_prefix _ (String a (String b ""))
             (10 * digit_value a + digit_value b)).
  - reflexivity.
  - split; [simpl; lia|]. split; [simpl; by rewrite Ha, Hb|]. by exists tail.
  - simpl. rewrite Ha, Hb. do 2 f_equal.
Qed.

Lemma numeral_head (k : Z) :
  1 ≤ k ≤ 100 → ∃ c t, str k = String c t ∧ is_digit c = true.
Proof.
  intros Hk. destruct (Z.eq_dec k 100) as [->|Hne].
  - by exists "1"%char, "00".
  - destruct (numeral_spec k) as (Hd & Hl & _); [lia|].
    destruct (str k) as [|c t]; [by destruct (k <? 10)%Z|].
    exists c, t. split; [done|]. simpl in Hd.
    by apply andb_true_iff in Hd as [Hc _].
Qed.

(** X1. [get_duplicate_name] returns a name unless the name begins with an
    empty pair of brackets, and the only exception it raises is
    [ValueError]. *)
Theorem get_duplicate_name_returns_iff (name : string) :
  ((∃ s, get_duplicate_name name = Ok s) ↔ ¬ ∃ rest, name = "[]" +:+ rest) ∧
  (∀ e, get_duplicate_name name = Raise e → e = ValueError).
Proof.
  split; [split|].
  - intros [s Hs] Hr.
    assert (get_duplicate_name name = Raise ValueError) as H
      by (by apply get_duplicate_name_raises).
    congruence.
  - intros Hn. destruct (get_duplicate_name name) as [s|e] eqn:H; [by exists s|].
    apply get_duplicate_name_raises in H as [_ H]. contradiction.
  - intros e H. by apply get_duplicate_name_raises in H as [-> _].
Qed.

(** X2. After a one-digit prefix the character that follows the closing
    bracket is dropped whatever it is, a space or the first letter of the
    name; when nothing follows, nothing is dropped. *)
Theorem one_digit_prefix_drops_next_character (a : ascii) :
  is_digit a = true →
  (∀ c rest,
     get_duplicate_name (String "[" (String a (String "]" (String c rest)))) =
       Ok ("[" +:+ str (digit_value a + 1) +:+ "] " +:+ rest)) ∧
  get_duplicate_name (String "[" (String a "]")) =
    Ok ("[" +:+ str (digit_value a + 1) +:+ "] ").
Proof.
  intros Ha. split; [intros c rest|];
    by rewrite get_duplicate_name_one_digit.
Qed.

Lemma one_digit_prefix_drops_next_character_witness :
  get_duplicate_name "[3]World" = Ok "[4] orld".
Proof.
  assert (Ha : is_digit "3" = true) by reflexivity.
  apply (proj1 (one_digit_prefix_drops_next_character "3" Ha) "W"%char "orld").
Defined.

(** X3. After a two-digit prefix everything that follows the closing bracket
    is kept, so a name that has a space there comes out with two, and the
    number is the decimal value of the two digits plus one. *)
Theorem two_digit_prefix_keeps_rest (a b : ascii) (rest : string) :
  is_digit a = true → is_digit b = true →
  get_duplicate_name
    (String "[" (String a (String b (String "]" (String " " rest))))) =
    Ok ("[" +:+ str (10 * digit_value a + digit_value b + 1) +:+ "]  " +:+ rest) ∧
  get_duplicate_name (String "[" (String a (String b (String "]" rest)))) =
    Ok ("[" +:+ str (10 * digit_value a + digit_value b + 1) +:+ "] " +:+ rest).
Proof.
  intros Ha Hb. split; by rewrite get_duplicate_name_two_digit.
Qed.

Lemma two_digit_prefix_keeps_rest_witness :
  get_duplicate_name "[12] World" = Ok "[13]  World" ∧
  get_duplicate_name "[12]World" = Ok "[13] World".
Proof.
  assert (Ha : is_digit "1" = true) by reflexivity.
  assert (Hb : is_digit "2" = true) by reflexivity.
  split.
  - apply (proj1 (two_digit_prefix_keeps_rest "1" "2" "World" Ha Hb)).
  - apply (proj2 (two_digit_prefix_keeps_rest "1" "2" "World" Ha Hb)).
Defined.

(** X4. A returned name begins with a bracketed number between 1 and 100
    followed by a space, and [get_duplicate_name] returns on it again: the
    function never raises on its own output. *)
Theorem get_duplicate_name_output (name s : string) :
  get_duplicate_name name = Ok s →
  ∃ k rest, 1 ≤ k ≤ 100 ∧ s = "[" +:+ str k +:+ "] " +:+ rest ∧
    ∃ s', get_duplicate_name s = Ok s'.
Proof.
  intros Hs.
  assert (∃ k rest, 1 ≤ k ≤ 100 ∧ s = "[" +:+ str k +:+ "] " +:+ rest)
    as (k & rest & Hk & ->).
  { destruct (DUPLICATED_TASK_PREFIX_match name) as [d|] eqn:Hm.
    - apply DUPLICATED_TASK_PREFIX_match_Some in Hm.
      destruct d as [|a d'].
      + destruct Hm as (_ & _ & r & ->). discriminate Hs.
      + destruct (int_digits_value (String a d')) as (n & Hn & Hr).
        * destruct Hm as (Hl & _). simpl in *. lia.
        * by destruct Hm as (_ & Hd & _).
        * rewrite (get_duplicate_name_prefix _ _ _ Hm Hn) in Hs.
          injection Hs as <-. exists (n + 1), (slice_from 4 name).
          split; [lia|done].
    - apply DUPLICATED_TASK_PREFIX_match_None in Hm.
      rewrite (get_duplicate_name_no_prefix _ Hm) in Hs. injection Hs as <-.
      exists 1, name. split; [lia|done]. }
  exists k, rest. split; [done|]. split; [done|].
  destruct (get_duplicate_name ("[" +:+ str k +:+ "] " +:+ rest))
    as [s'|e] eqn:H; [by exists s'|].
  apply get_duplicate_name_raises in H as [_ [r Hr]].
  destruct (numeral_head k Hk) as (c & t & Hc & Hd). rewrite Hc in Hr.
  injection Hr as -> _. discriminate Hd.
Qed.

Lemma get_duplicate_name_output_witness :
  ∃ k rest, 1 ≤ k ≤ 100 ∧ "[100]  x" = "[" +:+ str k +:+ "] " +:+ rest ∧
    ∃ s', get_duplicate_name "[100]  x" = Ok s'.
Proof.
  apply (get_duplicate_name_output "[99] x"). reflexivity.
Defined.

Lemma padding_low (k : nat) : (k ≤ 10)%nat → padding k = 1%nat.
Proof. unfold padding. lia. Qed.

Lemma padding_high (k : nat) : (10 ≤ k)%nat → padding (S k) = S (padding k).
Proof. unfold padding. lia. Qed.

Lemma iterate_name_step (x : string) (k : nat) :
  (1 ≤ k ≤ 99)%nat →
  get_duplicate_name
    ("[" +:+ str (Z.of_nat k) +:+ "]" +:+ spaces (padding k) +:+ x) =
    Ok ("[" +:+ str (Z.of_nat (S k)) +:+ "]" +:+ spaces (padding (S k)) +:+ x).
Proof.
  intros Hk. destruct (numeral_spec (Z.of_nat k)) as (Hd & Hl & Hi); [lia|].
  replace (Z.of_nat (S k)) with (Z.of_nat k + 1) by lia.
  destruct (Z.ltb_spec (Z.of_nat k) 10) as [Hlt|Hge].
  - rewrite (padding_low k), (padding_low (S k)) by lia.
    destruct (str (Z.of_nat k)) as [|a [|b t]] eqn:Hs; try discriminate Hl.
    simpl in Hd. rewrite andb_true_r in Hd.
    simpl in Hi. rewrite Hd in Hi. injection Hi as Hi.
    change ("[" +:+ String a "" +:+ "]" +:+ spaces 1 +:+ x)
      with (String "[" (String a (String "]" (String " " x)))).
    rewrite get_duplicate_name_one_digit by done.
    assert (digit_value a = Z.of_nat k) as -> by lia. reflexivity.
  - rewrite padding_high by lia.
    destruct (str (Z.of_nat k)) as [|a [|b [|c t]]] eqn:Hs; try discriminate Hl.
    simpl in Hd. rewrite andb_true_r in Hd.
    apply andb_true_iff in Hd as [Ha Hb].
    simpl in Hi. rewrite Ha, Hb in Hi. injection Hi as Hi.
    change ("[" +:+ String a (String b "") +:+ "]" +:+ spaces (padding k) +:+ x)
      with (String "[" (String a (String b
              (String "]" (spaces (padding k) +:+ x))))).
    rewrite get_duplicate_name_two_digit by done.
    assert (10 * digit_value a + digit_value b = Z.of_nat k) as -> by lia.
    reflexivity.
Qed.

(** X5. Duplicating a name without prefix [k] times gives the prefix [[k]]:
    with one space up to the tenth time, and with one more space each time
    from the eleventh to the hundredth; the hundred-and-first time the
    three-digit prefix is no longer recognised and the count restarts with
    ["[1] "] in front of it. *)
Theorem iterate_name_spec (x : string) :
  ¬ begins_with_bracket_prefix x →
  (∀ k, (1 ≤ k ≤ 100)%nat →
     iterate_name k x =
       Ok ("[" +:+ str (Z.of_nat k) +:+ "]" +:+ spaces (padding k) +:+ x)) ∧
  iterate_name 101 x = Ok ("[1] [100]" +:+ spaces 91 +:+ x).
Proof.
  intros Hx.
  assert (Hall : ∀ k, (1 ≤ k ≤ 100)%nat →
     iterate_name k x =
       Ok ("[" +:+ str (Z.of_nat k) +:+ "]" +:+ spaces (padding k) +:+ x)).
  { induction k as [|k IH]; intros Hk; [lia|].
    cbn [iterate_name]. destruct k as [|k'].
    - cbn [iterate_name mbind result_bind].
      by rewrite (get_duplicate_name_no_prefix x Hx).
    - rewrite IH by lia. cbn [mbind result_bind].
      apply iterate_name_step. lia. }
  split; [exact Hall|].
  change (iterate_name 101 x) with (s ← iterate_name 100 x; get_duplicate_name s).
  rewrite Hall by lia. reflexivity.
Qed.

Lemma iterate_name_spec_witness :
  iterate_name 12 "Hello" = Ok "[12]   Hello".
Proof.
  assert (Hx : ¬ begins_with_bracket_prefix "Hello").
  { intros (d & _ & _ & rest & H). discriminate H. }
  apply (proj1 (iterate_name_spec "Hello" Hx) 12%nat). lia.
Defined.

(** ** The membership rebuilder *)

Lemma memberships_fold_snoc (sp bl : string) (raw : list raw_membership)
    (m : raw_membership) :
  fold_left (memberships_step sp bl) (raw ++ [m]) [] =
    memberships_step sp bl (fold_left (memberships_step sp bl) raw []) m.
Proof. by rewrite fold_left_app. Qed.

Lemma memberships_projects (sp bl : string) (raw : list raw_membership) :
  map project (fold_left (memberships_step sp bl) raw []) =
    map raw_project_gid raw.
Proof.
  induction raw as [|m raw IH] using rev_ind; [reflexivity|].
  rewrite memberships_fold_snoc. unfold memberships_step at 1.
  case_decide; rewrite !map_app, IH; simpl; congruence.
Qed.

Lemma memberships_sprint_section (sp bl : string) (raw : list raw_membership) :
  ∀ m', m' ∈ fold_left (memberships_step sp bl) raw [] →
  project m' = sp → section m' = bl.
Proof.
  induction raw as [|m raw IH] using rev_ind; intros m' Hin Hp.
  - by apply elem_of_nil in Hin.
  - rewrite memberships_fold_snoc in Hin. unfold memberships_step in Hin.
    case_decide; apply elem_of_app in Hin as [Hin|Hin]; try by apply IH.
    + by apply list_elem_of_singleton in Hin as ->.
    + apply list_elem_of_singleton in Hin as ->. simpl in Hp. contradiction.
Qed.

(** X6. The duplicate is placed on the same projects as the original, in the
    same order; none of its placements on the sprint board is outside the
    backlog section; and when the original has at most one placement per
    project, so has the duplicate. *)
Theorem generate_memberships_projects (t : task) (sp bl : string) :
  map project (generate_memberships t sp bl) =
    map raw_project_gid (task_memberships t) ∧
  (∀ m', m' ∈ generate_memberships t sp bl →
     project m' = sp → section m' = bl) ∧
  (NoDup (map raw_project_gid (task_memberships t)) →
     NoDup (map project (generate_memberships t sp bl))).
Proof.
  unfold generate_memberships. cbn zeta. split; [|split].
  - apply memberships_projects.
  - apply memberships_sprint_section.
  - by rewrite memberships_projects.
Qed.

Lemma generate_memberships_projects_witness :
  NoDup (map project (generate_memberships two_boards "sprintProj" "BL")).
Proof.
  apply (proj2 (proj2 (generate_memberships_projects two_boards "sprintProj" "BL"))).
  simpl. apply NoDup_cons. split.
  - intros H. apply list_elem_of_singleton in H. discriminate H.
  - apply NoDup_singleton.
Defined.

(** ** The custom-field reconciler *)

Lemma last_omap_cons {B C : Type} (g : B → option C) (x : B) (l : list B) :
  last (omap g (x :: l)) =
    match last (omap g l) with Some y => Some y | None => g x end.
Proof.
  change (omap g (x :: l))
    with (match g x with Some y => y :: omap g l | None => omap g l end).
  destruct (g x) as [v|]; [apply last_cons|by destruct (last (omap g l))].
Qed.

Lemma result_bind_assoc {B C D : Type} (r : result B) (f : B → result C)
    (g : C → result D) :
  (r ≫= f) ≫= g = r ≫= (λ x, f x ≫= g).
Proof. by destruct r. Qed.

Section Copying.
Variables E A S : string.

Local Abbreviation step := (custom_field_step E A S).

Lemma step_recorded (st st1 : cf_state) (f : custom_field) (k : string) :
  k ≠ E → k ≠ A → k ≠ S → step st f = Ok st1 →
  custom_fields st1 !! k =
    match recorded_under k f with
    | Some v => Some v
    | None => custom_fields st !! k
    end.
Proof.
  intros HE HA HS. unfold custom_field_step, recorded_under, recorded.
  repeat case_decide; try congruence;
    try (destruct (number_value f); intros [= <-]; reflexivity);
    try (destruct (enum_value f); intros [= <-]; simpl);
    try (intros [= <-]; simpl);
    rewrite ?lookup_insert_eq, ?lookup_insert_ne by congruence;
    try reflexivity; subst; rewrite ?lookup_insert_eq; try reflexivity;
    destruct (number_value f); reflexivity.
Qed.

Lemma for_each_recorded (k : string) (l : list custom_field) :
  k ≠ E → k ≠ A → k ≠ S → ∀ st st',
  for_each step st l = Ok st' →
  custom_fields st' !! k =
    match last (omap (recorded_under k) l) with
    | Some v => Some v
    | None => custom_fields st !! k
    end.
Proof.
  intros HE HA HS. induction l as [|f l IH]; intros st st' H.
  - simpl in H. by injection H as <-.
  - cbn [for_each] in H. destruct (step st f) as [st1|e] eqn:Hs;
      cbn [mbind result_bind] in H; [|discriminate].
    rewrite (IH _ _ H), last_omap_cons.
    destruct (last (omap (recorded_under k) l)); [done|].
    by apply step_recorded.
Qed.

(** Two iterations on fields of different gids can be exchanged. *)
Lemma step_comm (st : cf_state) (f g : custom_field) :
  gid f ≠ gid g →
  (step st f ≫= λ s, step s g) = (step st g ≫= λ s, step s f).
Proof.
  intros Hne. unfold custom_field_step.
  repeat case_decide; try congruence;
    repeat (match goal with
            | |- context [number_value ?x] => destruct (number_value x)
            | |- context [enum_value ?x] => destruct (enum_value x)
            end);
    cbn [mbind result_bind]; try reflexivity;
    repeat case_decide; try congruence; try reflexivity;
    unfold set_item; simpl; do 2 f_equal; by apply insert_insert_ne.
Qed.

Lemma for_each_permutation (l l' : list custom_field) :
  l ≡ₚ l' → NoDup (map gid l) → ∀ st, for_each step st l = for_each step st l'.
Proof.
  induction 1 as [|x l l' Hp IH|x y l|l l' l'' Hp1 IH1 Hp2 IH2]; intros Hnd st.
  - reflexivity.
  - cbn [for_each]. simpl in Hnd. apply NoDup_cons in Hnd as [_ Hnd].
    destruct (step st x); cbn [mbind result_bind]; [by apply IH|done].
  - cbn [for_each]. simpl in Hnd.
    apply NoDup_cons in Hnd as [Hy _].
    assert (gid y ≠ gid x) as Hne.
    { intros Heq. apply Hy. rewrite Heq. apply elem_of_cons. by left. }
    rewrite <- !result_bind_assoc. by rewrite (step_comm st y x Hne).
  - rewrite IH1 by done. apply IH2.
    by rewrite <- (Permutation_map gid Hp1).
Qed.
End Copying.

(** X7. In a returned mapping, a key other than the three configured ids
    holds what the last field of that gid to record something wrote: the
    option gid of an enum, the text or the number, with [None] kept for a
    text or a number and skipped for an enum; it is absent when no field of
    that gid records anything. *)
Theorem generate_custom_fields_copies (E A S : string) (t : task)
    (m : gmap string value) (k : string) :
  k ≠ E → k ≠ A → k ≠ S →
  generate_custom_fields t E A S = Ok m →
  m !! k = last (omap (recorded_under k) (task_custom_fields t)).
Proof.
  intros HE HA HS Hm.
  apply generate_custom_fields_inv in Hm as (st & Hst & ->).
  rewrite lookup_insert_ne by done.
  rewrite (for_each_recorded E A S k _ HE HA HS _ _ Hst).
  by destruct (last (omap (recorded_under k) (task_custom_fields t))).
Qed.

Lemma generate_custom_fields_copies_witness :
  ({[ "E" := VInt 0; "T" := VNone ]} : gmap string value) !! "X" =
    last (omap (recorded_under "X")
            [ enum_field "X" None; text_null_field "T" ]).
Proof.
  apply (generate_custom_fields_copies "E" "A" "S"
           (task_with_fields [ enum_field "X" None; text_null_field "T" ]));
    try discriminate.
  vm_compute. reflexivity.
Defined.

(** X8. The expected cost carried forward is never negative, whatever the
    fields and whatever the configured ids. *)
Theorem generate_custom_fields_nonnegative (E A S : string) (t : task)
    (m : gmap string value) :
  generate_custom_fields t E A S = Ok m →
  ∃ n, m !! E = Some (VInt n) ∧ 0 ≤ n.
Proof.
  intros Hm. apply generate_custom_fields_inv in Hm as (st & _ & ->).
  eexists. rewrite lookup_insert_eq. split; [reflexivity|].
  destruct (Z.ltb_spec (actual st) (expected st)); lia.
Qed.

Lemma generate_custom_fields_nonnegative_witness :
  ∃ n, ({[ "E" := VInt 0 ]} : gmap string value) !! "E" = Some (VInt n) ∧ 0 ≤ n.
Proof.
  apply (generate_custom_fields_nonnegative "E" "A" "S"
           (task_with_fields [ number_field "E" (Some 2); number_field "A" (Some 5) ])).
  vm_compute. reflexivity.
Defined.

(** X9. When no two custom fields of a task share a gid, the result, mapping
    or exception, does not depend on the order in which the fields are
    listed. *)
Theorem generate_custom_fields_order (E A S : string) (t : task)
    (fields : list custom_field) :
  task_custom_fields t ≡ₚ fields →
  NoDup (map gid (task_custom_fields t)) →
  generate_custom_fields (with_custom_fields fields t) E A S =
    generate_custom_fields t E A S.
Proof.
  intros Hp Hnd. unfold generate_custom_fields. cbn zeta.
  change (task_custom_fields (with_custom_fields fields t)) with fields.
  by rewrite (for_each_permutation E A S _ _ Hp Hnd).
Qed.

Lemma generate_custom_fields_order_witness :
  generate_custom_fields
    (with_custom_fields
       [ enum_field "X" (Some "opt1"); number_field "S" (Some 7);
         number_field "A" (Some 2); number_field "E" (Some 5) ]
       (task_with_fields (scenario_fields "E" "A" "S" "X")))
    "E" "A" "S" =
  generate_custom_fields (task_with_fields (scenario_fields "E" "A" "S" "X"))
    "E" "A" "S".
Proof.
  apply generate_custom_fields_order.
  - simpl. unfold scenario_fields.
    apply (Permutation_rev
             [ number_field "E" (Some 5); number_field "A" (Some 2);
               number_field "S" (Some 7); enum_field "X" (Some "opt1") ]).
  - apply (bool_decide_unpack _). vm_compute. exact I.
Defined.

(** ** The loop of [duplicate_tasks] *)

Lemma trace_bind {B C : Type} (m : io B) (k : B → io C) :
  trace (m ≫= k) =
    trace m ++ match outcome m with Ok a => trace (k a) | Raise _ => [] end.
Proof.
  unfold mbind, io_bind. destruct (outcome m); simpl; [done|].
  by rewrite app_nil_r.
Qed.

Lemma outcome_bind {B C : Type} (m : io B) (k : B → io C) :
  outcome (m ≫= k) =
    match outcome m with Ok a => outcome (k a) | Raise e => Raise e end.
Proof. unfold mbind, io_bind. by destruct (outcome m). Qed.

Section Duplicating.
Variable w : world.
Variable c : client_ref.
Variables ws sp bl E A S : string.

Local Abbreviation body := (duplicate_task w c ws sp bl E A S).
Local Abbreviation spec := (duplication_spec sp bl E A S).

Lemma duplicate_task_raise (t : task) (e : exception) :
  spec t = Raise e → body t = IO [] (Raise e).
Proof.
  unfold duplication_spec, duplicate_task. cbn zeta.
  destruct (get_duplicate_name (task_name t)) as [n|e1];
    cbn [mbind result_bind]; [|by intros [= ->]].
  destruct (generate_custom_fields t E A S) as [m|e2];
    cbn [mbind result_bind]; [discriminate|by intros [= ->]].
Qed.

Lemma duplicate_task_bound (g : client_ref) (t : task) (p : task_payload) :
  client w = Some g → spec t = Ok p →
  body t = IO (create_and_delete c g ws (t, p)) (Ok tt).
Proof.
  intros Hc Hp. unfold duplication_spec in Hp.
  unfold duplicate_task, load_client. rewrite Hc. cbn zeta.
  destruct (get_duplicate_name (task_name t)) as [n|]; [|discriminate].
  cbn [mbind result_bind] in Hp.
  destruct (generate_custom_fields t E A S) as [m|]; [|discriminate].
  cbn [mbind result_bind] in Hp. injection Hp as <-. reflexivity.
Qed.

Lemma duplicate_task_unbound (t : task) (p : task_payload) :
  client w = None → spec t = Ok p →
  body t = IO [(c, create_in_workspace ws p)] (Raise (NameError "client")).
Proof.
  intros Hc Hp. unfold duplication_spec in Hp.
  unfold duplicate_task, load_client. rewrite Hc. cbn zeta.
  destruct (get_duplicate_name (task_name t)) as [n|]; [|discriminate].
  cbn [mbind result_bind] in Hp.
  destruct (generate_custom_fields t E A S) as [m|]; [|discriminate].
  cbn [mbind result_bind] in Hp. injection Hp as <-. reflexivity.
Qed.

(** The loop with the global [client] bound to [g]: the tasks before the
    first one whose payload cannot be computed give a create and a delete
    each, and the loop ends there. *)
Lemma duplicate_loop_bound (g : client_ref) (tasks : list task) :
  client w = Some g →
  ∃ payloads,
    Forall2 (λ t p, spec t = Ok p) (take (length payloads) tasks) payloads ∧
    trace (for_each_io body tasks) =
      concat (map (create_and_delete c g ws) (zip tasks payloads)) ∧
    (outcome (for_each_io body tasks) = Ok tt ∧
       length payloads = length tasks ∨
     ∃ t e, tasks !! length payloads = Some t ∧ spec t = Raise e ∧
       outcome (for_each_io body tasks) = Raise e).
Proof.
  intros Hc. induction tasks as [|t tasks IH].
  - exists []. split; [constructor|]. split; [done|]. by left.
  - cbn [for_each_io]. destruct (spec t) as [p|e] eqn:Hp.
    + destruct IH as (payloads & HF & Htr & Hout).
      exists (p :: payloads). rewrite (duplicate_task_bound g t p Hc Hp).
      rewrite trace_bind, outcome_bind. cbn [trace outcome].
      split; [by constructor|]. split; [by rewrite Htr|].
      destruct Hout as [[Ho Hl]|(t' & e & Ht' & He & Ho)].
      * left. split; [done|]. simpl. by rewrite Hl.
      * right. by exists t', e.
    + exists []. rewrite (duplicate_task_raise t e Hp).
      split; [constructor|]. split; [done|]. right. by exists t, e.
Qed.
End Duplicating.

(** X10. With the global name [client] bound to a client [g],
    [duplicate_tasks] lists the section on the client it was given, then for
    each task up to the first whose name or custom fields cannot be computed
    it makes the create on the given client followed by the delete on [g];
    it then either returns, every task done, or raises that task's
    exception, having made no request for it and none for the tasks after
    it. *)
Theorem duplicate_tasks_batch (w : world) (c g : client_ref)
    (ws sp bl section_gid E A S : string) :
  client w = Some g →
  let tasks := remote_tasks w c section_gid in
  let r := duplicate_tasks w c ws sp bl section_gid E A S in
  ∃ payloads,
    Forall2 (λ t p, duplication_spec sp bl E A S t = Ok p)
      (take (length payloads) tasks) payloads ∧
    trace r =
      (c, get_tasks section_gid duplicate_opt_fields) ::
      concat (map (create_and_delete c g ws) (zip tasks payloads)) ∧
    (outcome r = Ok tt ∧ length payloads = length tasks ∨
     ∃ t e, tasks !! length payloads = Some t ∧
       duplication_spec sp bl E A S t = Raise e ∧ outcome r = Raise e).
Proof.
  intros Hc tasks r. subst tasks r.
  destruct (duplicate_loop_bound w c ws sp bl E A S g
              (remote_tasks w c section_gid) Hc)
    as (payloads & HF & Htr & Hout).
  exists payloads. split; [done|]. unfold duplicate_tasks.
  rewrite io_bind_call. cbn zeta. cbn [trace outcome].
  split; [by rewrite Htr|done].
Qed.

Lemma duplicate_tasks_batch_witness :
  let tasks := remote_tasks two_clients_world 7%nat "sec" in
  let r := duplicate_tasks two_clients_world 7%nat "ws" "sprintProj" "BL" "sec"
             "E" "A" "S" in
  ∃ payloads,
    Forall2 (λ t p, duplication_spec "sprintProj" "BL" "E" "A" "S" t = Ok p)
      (take (length payloads) tasks) payloads ∧
    trace r =
      (7%nat, get_tasks "sec" duplicate_opt_fields) ::
      concat (map (create_and_delete 7%nat 9%nat "ws") (zip tasks payloads)) ∧
    (outcome r = Ok tt ∧ length payloads = length tasks ∨
     ∃ t e, tasks !! length payloads = Some t ∧
       duplication_spec "sprintProj" "BL" "E" "A" "S" t = Raise e ∧
       outcome r = Raise e).
Proof.
  apply (duplicate_tasks_batch two_clients_world 7%nat 9%nat). reflexivity.
Defined.

(** X11. With the global name [client] unbound: an empty section is listed
    and the function returns; a first task whose payload can be computed is
    created and then [NameError] ends the run, nothing being deleted; a first
    task whose payload cannot be computed raises its own exception before
    any create. *)
Theorem duplicate_tasks_unbound (w : world) (c : client_ref)
    (ws sp bl section_gid E A S : string) :
  client w = None →
  let listing := (c, get_tasks section_gid duplicate_opt_fields) in
  let r := duplicate_tasks w c ws sp bl section_gid E A S in
  (remote_tasks w c section_gid = [] → r = IO [listing] (Ok tt)) ∧
  (∀ t rest p, remote_tasks w c section_gid = t :: rest →
     duplication_spec sp bl E A S t = Ok p →
     r = IO [listing; (c, create_in_workspace ws p)]
           (Raise (NameError "client"))) ∧
  (∀ t rest e, remote_tasks w c section_gid = t :: rest →
     duplication_spec sp bl E A S t = Raise e →
     r = IO [listing] (Raise e)).
Proof.
  intros Hc listing r. subst r listing. unfold duplicate_tasks.
  rewrite io_bind_call. cbn zeta. split; [|split].
  - by intros ->.
  - intros t rest p -> Hp. cbn [for_each_io].
    by rewrite (duplicate_task_unbound w c ws sp bl E A S t p Hc Hp).
  - intros t rest e -> He. cbn [for_each_io].
    by rewrite (duplicate_task_raise w c ws sp bl E A S t e He).
Qed.

Lemma duplicate_tasks_unbound_witness :
  duplicate_tasks imported_world 7%nat "ws" "sprintProj" "BL" "sec" "E" "A" "S" =
    IO [ (7%nat, get_tasks "sec" duplicate_opt_fields);
         (7%nat, create_in_workspace "ws" hello_payload) ]
       (Raise (NameError "client")).
Proof.
  assert (Hc : client imported_world = None) by reflexivity.
  apply (proj1 (proj2 (duplicate_tasks_unbound imported_world 7%nat "ws"
                         "sprintProj" "BL" "sec" "E" "A" "S" Hc))
           hello_task []).
  - reflexivity.
  - vm_compute. reflexivity.
Defined.

(** ** The [__main__] block *)

Lemma first_missing_Some (environ : gmap string string) (keys : list string)
    (k : string) :
  k ∈ keys → environ !! k = None → ∃ k', first_missing environ keys = Some k'.
Proof.
  induction keys as [|k0 keys IH]; intros Hin Hk.
  - by apply elem_of_nil in Hin.
  - simpl. destruct (environ !! k0) eqn:H0; [|by eexists].
    apply elem_of_cons in Hin as [->|Hin]; [congruence|by apply IH].
Qed.

Lemma main_closed_form (environ : gmap string string) (c : client_ref)
    (responses : nat → list task) :
  main environ c responses =
    match first_missing environ required_keys with
    | Some k => KeyError k
    | None => Found (run c (settings_of environ) responses)
    end.
Proof.
  unfold main, read_settings, environ_get, settings_of.
  cbn [first_missing required_keys].
  repeat (match goal with
          | |- context [environ !! ?k] => destruct (environ !! k) eqn:?
          end;
          cbn [mbind environ_bind default]; try reflexivity).
Qed.

(** X12. The [__main__] block raises [KeyError] for the first key, in the
    order it reads them, that the environment does not set, before any
    request is made, and otherwise runs the two loops with the values read;
    the sprint-number field is read under the key [SPRINT_NUBER_FIELD_GID],
    so an environment without that key ends in [KeyError] whatever else it
    sets. *)
Theorem main_reads_settings (environ : gmap string string) (c : client_ref)
    (responses : nat → list task) :
  main environ c responses =
    match first_missing environ required_keys with
    | Some k => KeyError k
    | None => Found (run c (settings_of environ) responses)
    end ∧
  (environ !! "SPRINT_NUBER_FIELD_GID" = None →
     ∃ k, main environ c responses = KeyError k).
Proof.
  split; [apply main_closed_form|].
  intros H. rewrite main_closed_form.
  assert (Hin : "SPRINT_NUBER_FIELD_GID" ∈ required_keys).
  { unfold required_keys. rewrite !elem_of_cons. tauto. }
  destruct (first_missing_Some environ required_keys _ Hin H) as [k ->].
  by exists k.
Qed.

Lemma main_reads_settings_witness :
  ∃ k, main well_spelled_environ 7%nat one_task_responses = KeyError k.
Proof.
  apply (proj2 (main_reads_settings well_spelled_environ 7%nat one_task_responses)).
  vm_compute. reflexivity.
Defined.

Section Run.
Variable c : client_ref.
Variable cfg : settings.
Variable responses : nat → list task.

Local Abbreviation spec :=
  (duplication_spec (SPRINTS_PROJECT_GID cfg) (BACKLOG_GID cfg)
     (EXPECTED_FIELD_GID cfg) (ACTUAL_FIELD_GID cfg)
     (SPRINT_NUMBER_FIELD_GID cfg)).

Lemma duplicate_sections_ok (payloads : nat → list task_payload)
    (gids : list string) : ∀ i,
  (∀ j, (j < length gids)%nat →
     Forall2 (λ t p, spec t = Ok p)
       (responses (i + j)%nat) (payloads (i + j)%nat)) →
  duplicate_sections c cfg responses i gids =
    IO (sections_trace c (WORKSPACE_GID cfg) responses payloads i gids) (Ok tt).
Proof.
  induction gids as [|gid gids IH]; intros i H; [reflexivity|].
  cbn [duplicate_sections sections_trace].
  rewrite (duplicate_tasks_main (main_world c (responses i)) c _ _ _ gid _ _ _
             (payloads i)); [|done|].
  - rewrite IH.
    + reflexivity.
    + intros j Hj. replace (S i + j)%nat with (i + S j)%nat by lia.
      apply H. simpl. lia.
  - specialize (H 0%nat). rewrite Nat.add_0_r in H. apply H. simpl. lia.
Qed.

Lemma io_sound_bind {B C : Type} (P : event → Prop) (R : exception → Prop)
    (m : io B) (k : B → io C) :
  io_sound P R m → (∀ a, io_sound P R (k a)) → io_sound P R (m ≫= k).
Proof.
  intros [Hm1 Hm2] Hk. unfold io_sound.
  rewrite trace_bind, outcome_bind. destruct (outcome m) as [a|e].
  - destruct (Hk a) as [Hk1 Hk2]. split; [by apply Forall_app|done].
  - split; [by rewrite app_nil_r|]. intros e' [= <-]. by apply Hm2.
Qed.

Lemma io_sound_for_each {B : Type} (P : event → Prop) (R : exception → Prop)
    (f : B → io unit) (l : list B) :
  (∀ x, io_sound P R (f x)) → io_sound P R (for_each_io f l).
Proof.
  intros Hf. induction l as [|x l IH].
  - split; [constructor|discriminate].
  - cbn [for_each_io]. by apply io_sound_bind.
Qed.

Lemma io_sound_call (P : event → Prop) (R : exception → Prop)
    (c' : client_ref) (rq : request) :
  P (c', rq) → io_sound P R (call c' rq).
Proof. intros H. split; [by repeat constructor|discriminate]. Qed.

Lemma io_sound_lift {B : Type} (P : event → Prop) (R : exception → Prop)
    (r : result B) :
  (∀ e, r = Raise e → R e) → io_sound P R (lift r).
Proof. intros H. split; [constructor|exact H]. Qed.

Lemma io_sound_pure {B C : Type} (P : event → Prop) (R : exception → Prop)
    (a : B) (k : B → io C) :
  io_sound P R (k a) → io_sound P R (mret a ≫= k).
Proof.
  intros [H1 H2]. unfold io_sound. rewrite trace_bind, outcome_bind. done.
Qed.

Lemma duplicate_tasks_sound (listing : list task) (section_gid : string) :
  io_sound (duplication_event c) payload_error
    (duplicate_tasks (main_world c listing) c (WORKSPACE_GID cfg)
       (SPRINTS_PROJECT_GID cfg) (BACKLOG_GID cfg) section_gid
       (EXPECTED_FIELD_GID cfg) (ACTUAL_FIELD_GID cfg)
       (SPRINT_NUMBER_FIELD_GID cfg)).
Proof.
  unfold duplicate_tasks. apply io_sound_bind; [by apply io_sound_call|].
  intros _. cbn zeta. apply io_sound_for_each. intros t.
  unfold duplicate_task. cbn zeta. apply io_sound_bind.
  { apply io_sound_lift. intros e He.
    apply get_duplicate_name_raises in He as [-> _]. by left. }
  intros name. apply io_sound_bind.
  { apply io_sound_lift. intros e He.
    apply generate_custom_fields_raises in He as [-> _]. right. by eexists. }
  intros fields. apply io_sound_bind; [by apply io_sound_call|].
  intros _. change (load_client (main_world c listing)) with (mret c : io _).
  apply io_sound_pure. by apply io_sound_call.
Qed.

Lemma duplicate_sections_sound (gids : list string) : ∀ i,
  io_sound (duplication_event c) payload_error
    (duplicate_sections c cfg responses i gids).
Proof.
  induction gids as [|gid gids IH]; intros i.
  - split; [constructor|discriminate].
  - cbn [duplicate_sections]. apply io_sound_bind; [|by intros _].
    apply duplicate_tasks_sound.
Qed.

Lemma complete_tasks_run (listing : list task) (section_gid : string) :
  complete_tasks (main_world c listing) c section_gid =
    IO ((c, get_tasks section_gid []) ::
        map (λ t, (c, update_task (task_gid t) completed_true)) listing)
       (Ok tt).
Proof.
  unfold complete_tasks. rewrite io_bind_call. cbn zeta.
  by rewrite complete_loop.
Qed.
End Run.

(** X13. When every payload of every listed task can be computed, the run
    makes, on the one client and in this order: for each section of
    [OTHER_GIDS] in turn its listing and then a create and a delete per
    task; then the listing of the done section and an update per task; and
    it returns. *)
Theorem run_trace (c : client_ref) (cfg : settings)
    (responses : nat → list task) (payloads : nat → list task_payload) :
  (∀ i, (i < length (OTHER_GIDS cfg))%nat →
     Forall2 (λ t p,
        duplication_spec (SPRINTS_PROJECT_GID cfg) (BACKLOG_GID cfg)
          (EXPECTED_FIELD_GID cfg) (ACTUAL_FIELD_GID cfg)
          (SPRINT_NUMBER_FIELD_GID cfg) t = Ok p)
       (responses i) (payloads i)) →
  run c cfg responses =
    IO (sections_trace c (WORKSPACE_GID cfg) responses payloads 0
          (OTHER_GIDS cfg) ++
        (c, get_tasks (DONE_GID cfg) []) ::
        map (λ t, (c, update_task (task_gid t) completed_true))
          (responses (length (OTHER_GIDS cfg))))
       (Ok tt).
Proof.
  intros H. unfold run.
  rewrite (duplicate_sections_ok c cfg responses payloads) by exact H.
  rewrite complete_tasks_run. reflexivity.
Qed.

Lemma run_trace_witness :
  run 7%nat (settings_of full_environ) one_task_responses =
    IO [ (7%nat, get_tasks "s1" duplicate_opt_fields);
         (7%nat, create_in_workspace "ws" hello_payload);
         (7%nat, delete_task "t1");
         (7%nat, get_tasks "s2" duplicate_opt_fields);
         (7%nat, get_tasks "s3" duplicate_opt_fields);
         (7%nat, get_tasks "s4" duplicate_opt_fields);
         (7%nat, get_tasks "done" []) ]
       (Ok tt).
Proof.
  apply (run_trace 7%nat (settings_of full_environ) one_task_responses
           one_task_payloads).
  intros [|i] Hi.
  - constructor; [vm_compute; reflexivity|constructor].
  - constructor.
Defined.

(** X14. In every run all requests go to the one client the block created,
    and [NameError] is never raised: the global name [client] is the client
    passed. When the loop over [OTHER_GIDS] raises, the run ends with that
    exception and its requests are those the loop had made: [complete_tasks]
    is not called, and no update is among them. *)
Theorem run_invariants (c : client_ref) (cfg : settings)
    (responses : nat → list task) :
  Forall (λ ev : event, ev.1 = c) (trace (run c cfg responses)) ∧
  (∀ name, outcome (run c cfg responses) ≠ Raise (NameError name)) ∧
  (∀ e,
     outcome (duplicate_sections c cfg responses 0 (OTHER_GIDS cfg)) = Raise e →
     run c cfg responses =
       IO (trace (duplicate_sections c cfg responses 0 (OTHER_GIDS cfg)))
          (Raise e) ∧
     Forall (λ ev : event, is_update ev.2 = false)
       (trace (run c cfg responses))).
Proof.
  pose proof (duplicate_sections_sound c cfg responses (OTHER_GIDS cfg) 0%nat)
    as [Htr Hout].
  split; [|split].
  - unfold run. rewrite trace_bind, complete_tasks_run. cbn [trace outcome].
    apply Forall_app. split.
    + eapply Forall_impl; [exact Htr|]. by intros ev [H _].
    + destruct (outcome _); [|constructor].
      constructor; [done|]. apply Forall_forall. intros ev Hev.
      apply list_elem_of_In, in_map_iff in Hev as (t & <- & _).
      reflexivity.
  - intros name. unfold run. rewrite outcome_bind, complete_tasks_run.
    cbn [outcome].
    destruct (outcome (duplicate_sections c cfg responses 0 (OTHER_GIDS cfg)))
      as [u|e] eqn:Ho; [discriminate|].
    intros [= ->]. destruct (Hout _ eq_refl) as [H|[msg H]]; discriminate H.
  - intros e He.
    assert (run c cfg responses =
            IO (trace (duplicate_sections c cfg responses 0 (OTHER_GIDS cfg)))
               (Raise e)) as Hrun.
    { unfold run, mbind, io_bind. by rewrite He. }
    split; [exact Hrun|]. rewrite Hrun. cbn [trace].
    eapply Forall_impl; [exact Htr|]. by intros ev [_ Hu].
Qed.

Example run_failing_first_section :
  run 7%nat (settings_of full_environ) failing_responses =
    IO [ (7%nat, get_tasks "s1" duplicate_opt_fields) ] (Raise ValueError).
Proof. vm_compute. reflexivity. Qed.

Lemma run_invariants_witness :
  run 7%nat (settings_of full_environ) failing_responses =
    IO (trace (duplicate_sections 7%nat (settings_of full_environ)
                 failing_responses 0
                 (OTHER_GIDS (settings_of full_environ))))
       (Raise ValueError) ∧
  Forall (λ ev : event, is_update ev.2 = false)
    (trace (run 7%nat (settings_of full_environ) failing_responses)).
Proof.
  apply (proj2 (proj2 (run_invariants 7%nat (settings_of full_environ)
                         failing_responses)) ValueError).
  vm_compute. reflexivity.
Defined.

Lemma get_duplicate_name_returns_iff_witness :
  ∃ s, get_duplicate_name "[x] y" = Ok s.
Proof.
  apply (proj1 (get_duplicate_name_returns_iff "[x] y")).
  intros [rest H]. discriminate H.
Defined.

(** ** The pattern [DUPLICATED_TASK_PREFIX] *)

(** X15. The pattern matches exactly the names that begin with an opening
    bracket, at most two ASCII digits and a closing bracket, the group being
    those digits; in particular a bracketed number of three digits is not
    matched. *)
Theorem DUPLICATED_TASK_PREFIX_spec (name : string) :
  (∀ d, DUPLICATED_TASK_PREFIX_match name = Some d ↔ bracket_prefix d name) ∧
  (DUPLICATED_TASK_PREFIX_match name = None ↔
     ¬ begins_with_bracket_prefix name) ∧
  (∀ a b c rest, is_digit a = true → is_digit b = true → is_digit c = true →
     name = String "[" (String a (String b (String c (String "]" rest)))) →
     DUPLICATED_TASK_PREFIX_match name = None).
Proof.
  split; [|split].
  - intros d. apply DUPLICATED_TASK_PREFIX_match_Some.
  - apply DUPLICATED_TASK_PREFIX_match_None.
  - intros a b c rest Ha Hb Hc ->. simpl. rewrite Ha, Hb.
    destruct (Ascii.eqb_spec c "]") as [->|_]; [discriminate Hc|].
    destruct (Ascii.eqb_spec b "]") as [->|_]; [discriminate Hb|].
    by destruct (Ascii.eqb_spec a "]") as [->|_]; [discriminate Ha|].
Qed.

Lemma DUPLICATED_TASK_PREFIX_spec_witness :
  DUPLICATED_TASK_PREFIX_match "[100] x" = None.
Proof.
  apply (proj2 (proj2 (DUPLICATED_TASK_PREFIX_spec "[100] x"))
           "1"%char "0"%char "0"%char " x"); reflexivity.
Defined.
